(** * twistedchecker: the runner of [twistedchecker/core/runner.py]

  A shallow embedding of class [Runner]: the report parser
  [computeWarnings], the diff computation and report formatting of
  [generateDiff], the checker restriction filter ([findUselessCheckers],
  [unregisterChecker], [restrictCheckers]) and the orchestration in
  [run] with the [--diff] option callback.

  Python 2 [str] values are byte strings: they are [string] here.
  Dictionaries are [gmap], sets are [gset], lists are [list]. *)

From Stdlib Require Import ZArith Ascii String.
From stdpp Require Import gmap strings list fin_maps.

(** ** Python string primitives used by the runner *)

Module PyStr.

Definition nl : ascii := "010"%char.

(** The one-character string [chr(10)]. *)
Definition NL : string := String nl "".

(** [s.startswith(p)]. *)
Fixpoint startswith (p s : string) : bool :=
  match p with
  | "" => true
  | String a p' =>
      match s with
      | "" => false
      | String b s' => if Ascii.eqb a b then startswith p' s' else false
      end
  end.

(** [s.replace(old, empty)] for a non-empty [old]: the occurrences of
    [old] are found from left to right without overlap and removed.
    [skip] counts the characters of the occurrence being removed that are
    still to be passed over. *)
Fixpoint replace_go (skip : nat) (old s : string) : string :=
  match s with
  | "" => ""
  | String c s' =>
      match skip with
      | S k => replace_go k old s'
      | O =>
          if startswith old s
          then replace_go (String.length old - 1) old s'
          else String c (replace_go 0 old s')
      end
  end.

Definition replace_empty (old s : string) : string := replace_go 0 old s.

(** Is [c] one of the characters removed by [strip(chr(10))]? *)
Definition is_nl (c : ascii) : bool := Ascii.eqb c nl.

(** [s.lstrip(chr(10))]. *)
Fixpoint lstrip_nl (s : string) : string :=
  match s with
  | "" => ""
  | String c s' => if is_nl c then lstrip_nl s' else s
  end.

(** [s.rstrip(chr(10))]. *)
Fixpoint rstrip_nl (s : string) : string :=
  match s with
  | "" => ""
  | String c s' =>
      match rstrip_nl s' with
      | "" => if is_nl c then "" else String c ""
      | r => String c r
      end
  end.

(** [s.strip(chr(10))]: line breaks removed at both ends. *)
Definition strip_nl (s : string) : string := rstrip_nl (lstrip_nl s).

(** Iterating over [StringIO.StringIO(s)]: the lines of [s], each one
    with its terminating line break when it has one. *)
Fixpoint readlines (s : string) : list string :=
  match s with
  | "" => []
  | String c s' =>
      if is_nl c then NL :: readlines s'
      else match readlines s' with
           | [] => [String c ""]
           | l :: ls => String c l :: ls
           end
  end.

(** [sep.join(l)] with [sep = chr(10)]. *)
Fixpoint join_nl (l : list string) : string :=
  match l with
  | [] => ""
  | [x] => x
  | x :: l' => x +:+ NL +:+ join_nl l'
  end.

(** [s.split(chr(10))]; used to speak about the lines of a record. *)
Fixpoint split_nl (s : string) : list string :=
  match s with
  | "" => [""]
  | String c s' =>
      if is_nl c then "" :: split_nl s'
      else match split_nl s' with
           | [] => [String c ""]
           | l :: ls => String c l :: ls
           end
  end.

(** No line break occurs in [s]. *)
Fixpoint no_nl (s : string) : bool :=
  match s with
  | "" => true
  | String c s' => negb (is_nl c) && no_nl s'
  end.

(** [old in s]: [old] occurs in [s] as a substring. *)
Fixpoint contains (old s : string) : bool :=
  startswith old s ||
  match s with
  | "" => false
  | String _ s' => contains old s'
  end.

End PyStr.

(** ** The report parser and the diff *)

Module Report.
Import PyStr.

(** [Runner.prefixModuleName]. *)
Definition prefixModuleName : string := "************* Module ".

Definition is_digit (c : ascii) : bool :=
  let n := nat_of_ascii c in (48 <=? n)%nat && (n <=? 57)%nat.

Definition is_severity (c : ascii) : bool :=
  match c with
  | "W" | "C" | "E" | "F" | "R" => true
  | _ => false
  end%char.

(** [re.search(Runner.regexLineStart, line)] as a truth value.  The
    pattern is anchored with [^] and compiled without [re.MULTILINE], so
    it can only match at the first character of [line]: one letter of
    [WCEFR], four decimal digits, a colon. *)
Definition regexLineStart (line : string) : bool :=
  match line with
  | String c0 (String c1 (String c2 (String c3 (String c4 (String c5 _))))) =>
      is_severity c0 && is_digit c1 && is_digit c2 && is_digit c3 &&
      is_digit c4 && Ascii.eqb c5 ":"%char
  | _ => false
  end.

(** The local variables of [computeWarnings]. *)
Record pstate := PState {
  warnings : gmap string (gset string);
  currentModule : option string;
  warningsCurrentModule : list string
}.

(** Truth value of [currentModule]: [None] and the empty string are
    false. *)
Definition truthy (o : option string) : bool :=
  match o with
  | Some (String _ _) => true
  | _ => false
  end.

(** [if currentModule: warnings[currentModule] = set(warningsCurrentModule)]. *)
Definition flush (st : pstate) : gmap string (gset string) :=
  match currentModule st with
  | Some m =>
      if truthy (Some m)
      then <[m := list_to_set (warningsCurrentModule st)]> (warnings st)
      else warnings st
  | None => warnings st
  end.

(** [l[-1] += chr(10) + line] on a non-empty list. *)
Fixpoint append_last (l : list string) (line : string) : list string :=
  match l with
  | [] => []
  | [w] => [w +:+ NL +:+ line]
  | w :: l' => w :: append_last l' line
  end.

(** The body of the [for] loop of [computeWarnings], on a line that has
    already been stripped. *)
Definition processLine (st : pstate) (line : string) : pstate :=
  if startswith prefixModuleName line then
    PState (flush st) (Some (replace_empty prefixModuleName line)) []
  else if regexLineStart line then
    PState (warnings st) (currentModule st) (warningsCurrentModule st ++ [line])
  else
    match warningsCurrentModule st with
    | [] => st
    | _ :: _ =>
        PState (warnings st) (currentModule st)
               (append_last (warningsCurrentModule st) line)
    end.

Definition initial : pstate := PState ∅ None [].

(** The loop over already stripped lines, followed by the last flush. *)
Definition computeWarningsLines (lines : list string) : gmap string (gset string) :=
  flush (foldl processLine initial lines).

(** [Runner.computeWarnings]. *)
Definition computeWarnings (result : string) : gmap string (gset string) :=
  computeWarningsLines (strip_nl <$> readlines result).

(** The dictionary [newErrors] built by the first loop of
    [generateDiff]: for each module of [currentErrors], the warnings that
    [previousErrors.get(modulename, set())] does not have, kept when
    there are any. *)
Definition newErrors (previousErrors currentErrors : gmap string (gset string))
  : gmap string (gset string) :=
  map_fold
    (λ modulename current acc,
       let errors := current ∖ default ∅ (previousErrors !! modulename) in
       if decide (errors = ∅) then acc else <[modulename := errors]> acc)
    ∅ currentErrors.

(** The list [allNewErrors] built by the second loop of [generateDiff]
    when the dictionary is iterated in the order [items]: the header of
    each module, then its warnings. *)
Fixpoint allNewErrors (items : list (string * list string)) : list string :=
  match items with
  | [] => []
  | (modulename, errors) :: items' =>
      (prefixModuleName +:+ modulename) :: errors ++ allNewErrors items'
  end.

(** The text returned for a given iteration order. *)
Definition formatItems (items : list (string * list string)) : string :=
  join_nl (allNewErrors items).

(** Python leaves the iteration order of a [dict] and of a [set] open.
    [items] is one possible iteration of [d] when it lists every module
    of [d] once, each with its warnings. *)
Definition to_dict (items : list (string * list string)) : gmap string (gset string) :=
  list_to_map ((λ it, (it.1, list_to_set it.2)) <$> items).

Definition enumerates (d : gmap string (gset string))
    (items : list (string * list string)) : Prop :=
  NoDup items.*1 ∧ to_dict items = d.

(** The iteration order used when the model is run. *)
Definition dict_items (d : gmap string (gset string)) : list (string * list string) :=
  (λ kv, (kv.1, elements kv.2)) <$> map_to_list d.

(** Lines 239 to 245 of [generateDiff]: the report text of a dictionary
    of warnings. *)
Definition formatNewErrors (new : gmap string (gset string)) : string :=
  join_nl (if decide (new = ∅) then [] else allNewErrors (dict_items new)).

(** [Runner.generateDiff]; [previous] is what
    [open(self.diffOption).read()] returns. *)
Definition generateDiff (previous result : string) : string :=
  let currentErrors := computeWarnings result in
  let previousErrors := computeWarnings previous in
  formatNewErrors (newErrors previousErrors currentErrors).

(** *** Well-formed reports

    The shape of module names and of warning records that the formatted
    text keeps apart. *)

(** A line that is neither a module header nor the start of a warning. *)
Definition other_line (line : string) : bool :=
  negb (startswith prefixModuleName line) && negb (regexLineStart line).

Definition valid_name (n : string) : bool :=
  negb (String.eqb n "") && no_nl n && negb (contains prefixModuleName n).

(** The first line of the record starts with a message id, the lines
    after it are [other_line]s, and the record does not end with a line
    break. *)
Definition valid_record (r : string) : bool :=
  match split_nl r with
  | [] => false
  | l0 :: conts =>
      regexLineStart l0 && forallb other_line conts &&
      bool_decide (last (split_nl r) ≠ Some "")
  end.

(** What the data model asks of a record: its primary line starts with a
    message id. *)
Definition primary_line_matches (r : string) : bool :=
  match split_nl r with
  | [] => false
  | l0 :: _ => regexLineStart l0
  end.

Definition valid_item (it : string * list string) : bool :=
  valid_name it.1 && forallb valid_record it.2.

Definition wellformed (d : gmap string (gset string)) : Prop :=
  ∀ n s, d !! n = Some s → valid_name n = true ∧ ∀ r, r ∈ s → valid_record r = true.

(** The warnings of one block: what the loop accumulates in
    [warningsCurrentModule] over the lines that follow a header. *)
Definition blockWarnings (block : list string) : list string :=
  warningsCurrentModule (foldl processLine initial block).

(** The lines of a formatted report. *)
Definition report_lines (items : list (string * list string)) : list string :=
  concat (split_nl <$> allNewErrors items).

(** One step of storing the items of a dictionary. *)
Definition store (acc : gmap string (gset string)) (it : string * list string) :=
  <[it.1 := list_to_set it.2]> acc.

Definition is_header (line : string) : bool := startswith prefixModuleName line.

Definition moduleName (line : string) : string :=
  replace_empty prefixModuleName line.

End Report.

(** ** Exceptions and state *)

Module Eff.

(** The argument of [sys.exit]: nothing, or an integer. *)
Inductive exit_code := ExitNone | ExitInt (n : Z).

(** The status the process ends with: [SystemExit(None)] is status 0. *)
Definition exit_status (c : exit_code) : Z :=
  match c with
  | ExitNone => 0
  | ExitInt n => n
  end.

Inductive exn :=
| KeyError
| ValueError
| AttributeError
| TypeError
| IOError
| SystemExit (code : exit_code).

(** A computation over a state [S] returns a value or raises; the state
    reached is kept in both cases. *)
Inductive result (S A : Type) :=
| Ok (a : A) (s : S)
| Raise (e : exn) (s : S).
Arguments Ok {S A} a s.
Arguments Raise {S A} e s.

Definition M (S A : Type) : Type := S → result S A.

Definition ret {S A} (a : A) : M S A := λ s, Ok a s.

Definition bind {S A B} (c : M S A) (k : A → M S B) : M S B :=
  λ s, match c s with
       | Ok a s' => k a s'
       | Raise e s' => Raise e s'
       end.

Definition get {S} : M S S := λ s, Ok s s.
Definition put {S} (s : S) : M S unit := λ _, Ok tt s.
Definition modify {S} (f : S → S) : M S unit := λ s, Ok tt (f s).
Definition raise {S A} (e : exn) : M S A := λ s, Raise e s.

(** [try: c except: h]. *)
Definition try_catch {S A} (c : M S A) (h : exn → M S A) : M S A :=
  λ s, match c s with
       | Ok a s' => Ok a s'
       | Raise e s' => h e s'
       end.

(** [for x in l: body(x)]. *)
Fixpoint for_each {S A} (l : list A) (body : A → M S unit) : M S unit :=
  match l with
  | [] => ret tt
  | x :: l' => bind (body x) (λ _, for_each l' body)
  end.

Definition final_state {S A} (r : result S A) : S :=
  match r with
  | Ok _ s => s
  | Raise _ s => s
  end.

End Eff.

Notation "'let*' x := c 'in' k" := (Eff.bind c (λ x, k))
(at level 10, x name, c at level 100, k at level 200).
Notation "c >> k" := (Eff.bind c (λ _, k))
(at level 60, right associativity).

(** ** The checker registry of the lint engine and the restriction filter *)

Module Registry.
Import Eff.

(** A checker object.  Two distinct objects may carry the same name and
    the same messages; [oid] tells them apart, so that equality of
    records is the identity of objects. *)
Record Checker := MkChecker {
  oid : nat;
  name : string;
  msgs : gset string
}.

Global Instance Checker_eq_dec : EqDecision Checker.
Proof. solve_decision. Defined.

Global Instance Checker_countable : Countable Checker.
Proof.
  refine (inj_countable' (λ c, (oid c, name c, msgs c))
                         (λ t, MkChecker t.1.1 t.1.2 t.2) _).
  by intros [].
Defined.

(** The three structures of [PyLinter] that refer to checkers:
    [_checkers] maps a name to the list of checkers registered under it,
    [_reports] is keyed by checker, [options_providers] is a list. *)
Record PyLinter := MkLinter {
  _checkers : gmap string (list Checker);
  _reports : gmap Checker (list string);
  options_providers : list Checker
}.

(** [l.remove(x)]: the first occurrence of [x] is removed; [None] stands
    for the [ValueError] raised when there is none. *)
Fixpoint list_remove (x : Checker) (l : list Checker) : option (list Checker) :=
  match l with
  | [] => None
  | y :: l' =>
      if decide (x = y) then Some l' else (y ::.) <$> list_remove x l'
  end.

(** [Runner.unregisterChecker].  Subscripting [_checkers] with a name
    that is not a key raises [KeyError]. *)
Definition unregisterChecker (checker : Checker) : M PyLinter unit :=
  (let* s := get in
   match _checkers s !! name checker with
   | None => raise KeyError
   | Some l =>
       match list_remove checker l with
       | None => raise ValueError
       | Some l' =>
           put (MkLinter (<[name checker := l']> (_checkers s))
                         (_reports s) (options_providers s))
       end
   end) >>
  (let* s := get in
   if decide (is_Some (_reports s !! checker))
   then put (MkLinter (_checkers s) (delete checker (_reports s))
                      (options_providers s))
   else ret tt) >>
  (let* s := get in
   if decide (checker ∈ options_providers s)
   then match list_remove checker (options_providers s) with
        | None => raise ValueError
        | Some l' => put (MkLinter (_checkers s) (_reports s) l')
        end
   else ret tt).

(** [not set(checker.msgs).intersection(allowedMessages)]. *)
Definition useless (allowedMessages : list string) (checker : Checker) : bool :=
  bool_decide (msgs checker ∩ list_to_set allowedMessages = ∅).

(** The keys of a dictionary in the order the model iterates them. *)
Definition dict_keys (d : gmap string (list Checker)) : list string :=
  (map_to_list d).*1.

(** The list [uselessCheckers] built by the two nested loops of
    [findUselessCheckers]. *)
Definition uselessCheckers (allowedMessages : list string) (s : PyLinter)
  : list Checker :=
  checkerName ← dict_keys (_checkers s);
  List.filter (useless allowedMessages)
              (default [] (_checkers s !! checkerName)).

(** [Runner.findUselessCheckers]. *)
Definition findUselessCheckers (allowedMessages : list string)
  : M PyLinter (list Checker) :=
  let* s := get in ret (uselessCheckers allowedMessages s).

(** [Runner.restrictCheckers]. *)
Definition restrictCheckers (allowedMessages : list string) : M PyLinter unit :=
  let* uselessCheckers := findUselessCheckers allowedMessages in
  for_each uselessCheckers unregisterChecker.

(** All the checkers of the name-indexed table. *)
Definition registered (s : PyLinter) (c : Checker) : Prop :=
  ∃ k l, _checkers s !! k = Some l ∧ c ∈ l.

(** The table is indexed by name: a checker is listed under its own
    name, as the engine's [register_checker] puts it. *)
Definition indexed_by_name (s : PyLinter) : Prop :=
  ∀ k l c, _checkers s !! k = Some l → c ∈ l → name c = k.

(** The list of checkers registered under a name. *)
Definition table (s : PyLinter) (k : string) : list Checker :=
  default [] (_checkers s !! k).

(** How often [c] occurs in [l]. *)
Fixpoint occurrences (c : Checker) (l : list Checker) : nat :=
  match l with
  | [] => 0
  | x :: l' => (if decide (c = x) then 1 else 0) + occurrences c l'
  end.

(** [l] after [l.remove(c)] when [c] is in [l], and [l] itself
    otherwise. *)
Definition remove1 (c : Checker) (l : list Checker) : list Checker :=
  default l (list_remove c l).

(** The state [unregisterChecker] leaves when it does not raise. *)
Definition unregistered (c : Checker) (st : PyLinter) : PyLinter :=
  MkLinter (<[name c := remove1 c (table st (name c))]> (_checkers st))
           (delete c (_reports st))
           (remove1 c (options_providers st)).

End Registry.


(** ** The orchestrator: [run] and the [--diff] option *)

Module Orchestrator.
Import Eff PyStr Report.

(** Where the reporter of the engine writes: the stream
    [self.outputStream], the buffer [self.streamForDiff], or a stream the
    runner does not hold. *)
Inductive sink := ToOutputStream | ToStreamForDiff | ToElsewhere.

(** The state [run] works on.  [Runner.__init__] always calls
    [setOutput(sys.stdout)], so [self.outputStream] is a stream object
    (true as a condition); [outputStream] is the text written to it. *)
Record world := MkWorld {
  outputStream : string;
  stderr : string;
  streamForDiff : option string;
  reporter_output : sink;
  diffOption : option string;
  files : gmap string string;
  sys_path : list string;
  cwd : string;
  checked : list (list string)
}.

Definition write_output (t : string) (w : world) : world :=
  MkWorld (outputStream w +:+ t) (stderr w) (streamForDiff w)
          (reporter_output w) (diffOption w) (files w) (sys_path w) (cwd w)
          (checked w).

Definition write_stderr (t : string) (w : world) : world :=
  MkWorld (outputStream w) (stderr w +:+ t) (streamForDiff w)
          (reporter_output w) (diffOption w) (files w) (sys_path w) (cwd w)
          (checked w).

Definition set_streamForDiff (b : option string) (w : world) : world :=
  MkWorld (outputStream w) (stderr w) b
          (reporter_output w) (diffOption w) (files w) (sys_path w) (cwd w)
          (checked w).

Definition set_reporter_output (k : sink) (w : world) : world :=
  MkWorld (outputStream w) (stderr w) (streamForDiff w)
          k (diffOption w) (files w) (sys_path w) (cwd w)
          (checked w).

Definition set_diffOption (o : option string) (w : world) : world :=
  MkWorld (outputStream w) (stderr w) (streamForDiff w)
          (reporter_output w) o (files w) (sys_path w) (cwd w)
          (checked w).

Definition set_sys_path (p : list string) (w : world) : world :=
  MkWorld (outputStream w) (stderr w) (streamForDiff w)
          (reporter_output w) (diffOption w) (files w) p (cwd w)
          (checked w).

Definition set_checked (l : list (list string)) (w : world) : world :=
  MkWorld (outputStream w) (stderr w) (streamForDiff w)
          (reporter_output w) (diffOption w) (files w) (sys_path w) (cwd w)
          l.

(** [Runner.errorResultNotExist % val]. *)
Definition errorResultNotExist (val : string) : string :=
  "Error: Result file '" +:+ val +:+ "' does not exist.".

(** [os.path.exists(val)]. *)
Definition path_exists (w : world) (val : string) : bool :=
  bool_decide (is_Some (files w !! val)).

(** [Runner._optionCallbackDiff]; only [val] is used.  [print] ends the
    line it writes, and [sys.exit()] is called without an argument. *)
Definition _optionCallbackDiff (val : string) : M world unit :=
  (let* w := get in
   if negb (path_exists w val)
   then modify (write_stderr (errorResultNotExist val +:+ NL)) >>
        raise (SystemExit ExitNone)
   else ret tt) >>
  modify (set_diffOption (Some val)).

Definition helpText : string :=
  "---" +:+ NL +:+ "HELP INFOMATION" +:+ NL.

(** [Runner.displayHelp]. *)
Definition displayHelp : M world unit := modify (write_output helpText).

(** [Runner.prepareDiff]. *)
Definition prepareDiff : M world unit :=
  modify (set_streamForDiff (Some "")) >>
  modify (set_reporter_output ToStreamForDiff).

(** [Runner.showDiffResults]: the captured report is compared with the
    text of the file [self.diffOption]. *)
Definition showDiffResults : M world unit :=
  let* w := get in
  match streamForDiff w with
  | None => raise AttributeError
  | Some result =>
      match diffOption w with
      | None => raise TypeError
      | Some path =>
          match files w !! path with
          | None => raise IOError
          | Some previous =>
              modify (write_output (generateDiff previous result +:+ NL))
          end
      end
  end.

(** [if self.diffOption:]. *)
Definition diff_requested (w : world) : bool := truthy (diffOption w).

Section Engine.

(** The lint engine is outside the repository.  Its option parser
    [load_command_line_configuration] is given the callback of the
    [--diff] option and returns the arguments it did not consume; its
    report for a list of arguments is [engine_report]. *)
Variable load_command_line_configuration :
  (string → M world unit) → list string → M world (list string).
Variable engine_report : list string → string.

(** [self.linter.check(args)]: one evaluation of the engine, recorded
    in [checked]; the report goes to the reporter's sink. *)
Definition check (args : list string) : M world unit :=
  modify (λ w, set_checked (checked w ++ [args]) w) >>
  modify (λ w,
    match reporter_output w with
    | ToOutputStream => write_output (engine_report args) w
    | ToStreamForDiff =>
        set_streamForDiff ((λ b, b +:+ engine_report args) <$> streamForDiff w) w
    | ToElsewhere => w
    end).

(** The [except SystemExit] clause of [run]. *)
Definition remap (e : exn) : exn :=
  match e with
  | SystemExit (ExitInt 2) => SystemExit (ExitInt 32)
  | _ => e
  end.

(** [Runner.run]. *)
Definition run (args : list string) : M world unit :=
  modify (set_reporter_output ToOutputStream) >>
  let* args := try_catch
                 (load_command_line_configuration _optionCallbackDiff args)
                 (λ e, raise (remap e)) in
  (match args with
   | [] => displayHelp
   | _ :: _ => ret tt
   end) >>
  (let* w := get in if diff_requested w then prepareDiff else ret tt) >>
  modify (λ w, set_sys_path (cwd w :: sys_path w) w) >>
  check args >>
  (let* w := get in if diff_requested w then showDiffResults else ret tt).

End Engine.

End Orchestrator.

(** ** Sample data *)

Module Examples.
Import PyStr Report.

(** The report of scenario A of the tests. *)
Definition scenarioA : gmap string (gset string) :=
  {[ "foo" := {[ "W9001:  1,0: Missing copyright header" ]};
     "bar" := {[ "W9002:  1,0: Missing a reference to test module in header";
                 "C0111:  10,0: Missing docstring" ]} ]}.

(** A report with one warning whose text ends with a line break. *)
Definition trailingBreak : gmap string (gset string) :=
  {[ "foo" := {[ "W0001: x" +:+ NL ]} ]}.

(** The text the parser reads [trailingBreak] from: a warning followed
    by an empty line. *)
Definition trailingBreakText : string :=
  prefixModuleName +:+ "foo" +:+ NL +:+ "W0001: x" +:+ NL +:+ NL.

(** A report text in which module [foo] has two header lines. *)
Definition repeatedText : string :=
  prefixModuleName +:+ "foo" +:+ NL +:+ "W0001: a" +:+ NL +:+
  prefixModuleName +:+ "foo" +:+ NL +:+ "W0002: b".

(** A report text whose two header lines carry the empty module name. *)
Definition namelessText : string :=
  prefixModuleName +:+ NL +:+ "W0001: a" +:+ NL +:+
  prefixModuleName +:+ NL +:+ "W0002: b".

(** A parser state with one open record. *)
Definition openRecord : pstate := PState ∅ (Some "foo") ["W0001: a"].

End Examples.

Module RegistryExamples.
Import Eff Registry.

Definition headerChecker : Checker :=
  MkChecker 1 "header" {[ "W9001"; "W9002" ]}.
Definition formatChecker : Checker :=
  MkChecker 2 "format" {[ "C0301"; "W0311"; "W0312" ]}.
Definition importsChecker : Checker :=
  MkChecker 3 "imports" {[ "W0401"; "W0403" ]}.

(** A linter with three registered checkers; only [formatChecker] has
    reports. *)
Definition linter0 : PyLinter :=
  MkLinter {[ "header" := [headerChecker];
              "format" := [formatChecker];
              "imports" := [importsChecker] ]}
           {[ formatChecker := ["RP0001"] ]}
           [headerChecker; formatChecker; importsChecker].

(** A linter whose table has lost [headerChecker] while the provider
    list still holds it. *)
Definition linter1 : PyLinter :=
  MkLinter {[ "header" := [] ]} ∅ [headerChecker].

(** Every list of the table holds only checkers of the name it is filed
    under; the executable form of [indexed_by_name]. *)
Definition indexed_check (st : PyLinter) : bool :=
  forallb (λ kv : string * list Checker,
             forallb (λ c, bool_decide (name c = kv.1)) kv.2)
          (map_to_list (_checkers st)).

(** A linter that lists [headerChecker] once in the table and twice among
    the option providers. *)
Definition linter2 : PyLinter :=
  MkLinter {[ "header" := [headerChecker] ]} ∅ [headerChecker; headerChecker].

End RegistryExamples.

Module OrchestratorExamples.
Import Eff PyStr Report Orchestrator.

(** A freshly initialised runner in a directory without result files. *)
Definition world0 : world :=
  MkWorld "" "" None ToElsewhere None ∅ [] "/home/user" [].

(** An option parser that hands the value of [--diff] to the callback
    and returns the other arguments. *)
Fixpoint diffParser (cb : string → M world unit) (args : list string)
  : M world (list string) :=
  match args with
  | [] => ret []
  | a :: rest =>
      if String.eqb a "--diff" then
        match rest with
        | v :: rest' => cb v >> diffParser cb rest'
        | [] => raise (SystemExit (ExitInt 2))
        end
      else let* r := diffParser cb rest in ret (a :: r)
  end.

(** An engine that reports nothing. *)
Definition silent (args : list string) : string := "".

End OrchestratorExamples.

(** ** Further definitions *)

Module ReportAux.
Import PyStr Report.

(** The text ends with a line break. *)
Fixpoint ends_nl (s : string) : bool :=
  match s with
  | "" => false
  | String c "" => is_nl c
  | String _ s' => ends_nl s'
  end.

(** The lines the loop of [computeWarnings] runs over. *)
Definition loop_lines (text : string) : list string :=
  strip_nl <$> readlines text.

(** Every warning a parser state holds starts with a message id. *)
Definition records_ok (st : pstate) : Prop :=
  Forall (λ r, regexLineStart r = true) (warningsCurrentModule st) ∧
  ∀ n s r, warnings st !! n = Some s → r ∈ s → regexLineStart r = true.

(** Every module name a parser state holds satisfies [Q]. *)
Definition names_ok (Q : string → Prop) (st : pstate) : Prop :=
  (∀ n, is_Some (warnings st !! n) → n ≠ "" ∧ Q n) ∧
  (∀ m, currentModule st = Some m → Q m).

End ReportAux.

(** ** Registration of the checkers of the tool *)

Module Registration.
Import Eff Registry.

(** [Runner.allowedMessagesFromPylint]. *)
Definition allowedMessagesFromPylint : list string :=
  ["F0001"; "C0111"; "C0103"; "C0301"; "W0311"; "W0312"].

Section Engine.

(** [PyLinter.register_checker] belongs to the engine. *)
Variable register_checker : Checker → M PyLinter unit.

(** The loop of [registerCheckers] over the instances of the checker
    classes named in [Runner.checkers]: the messages of each instance are
    added to [allowedMessages], then the instance is registered. *)
Fixpoint register_all (instances : list Checker) (allowedMessages : list string)
  : M PyLinter (list string) :=
  match instances with
  | [] => ret allowedMessages
  | instanceChecker :: rest =>
      let allowedMessages := allowedMessages ++ elements (msgs instanceChecker) in
      register_checker instanceChecker >> register_all rest allowedMessages
  end.

(** [Runner.registerCheckers]. *)
Definition registerCheckers (instances : list Checker) : M PyLinter (gset string) :=
  let* allowedMessages := register_all instances allowedMessagesFromPylint in
  restrictCheckers allowedMessages >> ret (list_to_set allowedMessages).

End Engine.

(** A registration in the manner of the engine: the checker is appended
    to the list under its name and to the option providers. *)
Definition register_plain (c : Checker) : M PyLinter unit :=
  modify (λ s, MkLinter (<[name c := table s (name c) ++ [c]]> (_checkers s))
                        (_reports s) (options_providers s ++ [c])).

(** A linter without any checker. *)
Definition emptyLinter : PyLinter := MkLinter ∅ ∅ [].

End Registration.

Module OrchestratorAux.
Import Eff PyStr Report Orchestrator.

(** A runner in a directory that holds the result file [old.txt] of an
    earlier run. *)
Definition worldWithResult : world :=
  MkWorld "" "" None ToElsewhere None
          {[ "old.txt" := prefixModuleName +:+ "foo" +:+ NL +:+ "W9001: 1,0: x" ]}
          [] "/home/user" [].

(** An engine that reports two warnings for module [foo]. *)
Definition twoWarnings (args : list string) : string :=
  prefixModuleName +:+ "foo" +:+ NL +:+ "W9001: 1,0: x" +:+ NL +:+
  "C0301: 10,0: Line too long" +:+ NL.

End OrchestratorAux.

(** * Properties *)

(** ** Strings and lines *)

Section StringFacts.
Import PyStr.

Lemma str_app_nil_l (s : string) : "" +:+ s = s.
Proof. reflexivity. Qed.

Lemma str_app_cons (c : ascii) (a s : string) :
  String c a +:+ s = String c (a +:+ s).
Proof. reflexivity. Qed.

Lemma str_app_nil_r (s : string) : s +:+ "" = s.
Proof. induction s as [|c s IH]; [done|]. by rewrite str_app_cons, IH. Qed.

Lemma str_app_assoc (a b c : string) : (a +:+ b) +:+ c = a +:+ b +:+ c.
Proof. induction a as [|x a IH]; [done|]. by rewrite !str_app_cons, IH. Qed.

Lemma is_nl_true (c : ascii) : is_nl c = true → c = nl.
Proof. unfold is_nl. by intros ?%Ascii.eqb_eq. Qed.

Lemma startswith_app (p s : string) : startswith p (p +:+ s) = true.
Proof.
  induction p as [|c p IH]; [done|].
  rewrite str_app_cons. simpl. by rewrite Ascii.eqb_refl.
Qed.

Lemma replace_go_skip (old s1 s : string) :
  replace_go (String.length s1) old (s1 +:+ s) = replace_go 0 old s.
Proof. induction s1 as [|c s1 IH]; [done|]. by rewrite str_app_cons. Qed.

Lemma replace_no_occurrence (old s : string) :
  contains old s = false → replace_go 0 old s = s.
Proof.
  induction s as [|c s IH]; [done|].
  intros [H1 H2]%orb_false_iff. cbn [contains replace_go].
  rewrite H1. f_equal. by apply IH.
Qed.

Lemma replace_prefix (old n : string) :
  old ≠ "" → contains old n = false → replace_empty old (old +:+ n) = n.
Proof.
  intros Hne Hn. unfold replace_empty.
  destruct old as [|c old]; [done|].
  rewrite str_app_cons. cbn [replace_go].
  rewrite <- str_app_cons, startswith_app.
  replace (String.length (String c old) - 1) with (String.length old)
    by (simpl; lia).
  rewrite replace_go_skip. by apply replace_no_occurrence.
Qed.

Lemma no_nl_app (a b : string) :
  no_nl a = true → no_nl b = true → no_nl (a +:+ b) = true.
Proof.
  induction a as [|c a IH]; [done|].
  rewrite str_app_cons. simpl. intros [-> ?]%andb_true_iff ?. simpl. auto.
Qed.

Lemma lstrip_no_nl (s : string) : no_nl s = true → lstrip_nl s = s.
Proof. destruct s as [|c s]; [done|]. simpl. by intros [->%negb_true_iff _]%andb_true_iff. Qed.

Lemma rstrip_no_nl (s : string) : no_nl s = true → rstrip_nl s = s.
Proof.
  induction s as [|c s IH]; [done|].
  simpl. intros [Hc%negb_true_iff Hs]%andb_true_iff.
  rewrite (IH Hs), Hc. by destruct s.
Qed.

Lemma strip_no_nl (s : string) : no_nl s = true → strip_nl s = s.
Proof. intros H. unfold strip_nl. by rewrite lstrip_no_nl, rstrip_no_nl. Qed.

Lemma rstrip_line (s : string) : no_nl s = true → rstrip_nl (s +:+ NL) = s.
Proof.
  induction s as [|c s IH]; [done|].
  rewrite str_app_cons. simpl. intros [Hc%negb_true_iff Hs]%andb_true_iff.
  rewrite (IH Hs), Hc. by destruct s.
Qed.

Lemma strip_line (s : string) : no_nl s = true → strip_nl (s +:+ NL) = s.
Proof.
  intros H. unfold strip_nl. destruct s as [|c s]; [done|].
  assert (lstrip_nl (String c s +:+ NL) = String c s +:+ NL) as ->.
  { rewrite str_app_cons. simpl in *.
    by apply andb_true_iff in H as [->%negb_true_iff _]. }
  by apply rstrip_line.
Qed.

Lemma readlines_no_nl (s : string) :
  no_nl s = true → s ≠ "" → readlines s = [s].
Proof.
  induction s as [|c s IH]; [done|].
  simpl. intros [Hc%negb_true_iff Hs]%andb_true_iff _. rewrite Hc.
  destruct s as [|d s]; [done|]. by rewrite IH.
Qed.

Lemma readlines_line (s t : string) :
  no_nl s = true → readlines (s +:+ NL +:+ t) = (s +:+ NL) :: readlines t.
Proof.
  induction s as [|c s IH]; [done|].
  rewrite !str_app_cons. simpl. intros [Hc%negb_true_iff Hs]%andb_true_iff.
  by rewrite Hc, (IH Hs).
Qed.

(** The loop of the parser sees the lines that were joined. *)
Lemma lines_join (ls : list string) :
  Forall (λ l, no_nl l = true) ls → last ls ≠ Some "" →
  strip_nl <$> readlines (join_nl ls) = ls.
Proof.
  induction ls as [|x ls IH]; [done|].
  intros [Hx Hls]%Forall_cons Hlast. destruct ls as [|y ls].
  - simpl in *. rewrite readlines_no_nl by congruence.
    simpl. by rewrite strip_no_nl.
  - change (join_nl (x :: y :: ls)) with (x +:+ NL +:+ join_nl (y :: ls)).
    rewrite readlines_line by done. rewrite fmap_cons, strip_line by done.
    f_equal. by apply IH.
Qed.

Lemma split_nl_nonempty (s : string) : split_nl s ≠ [].
Proof.
  destruct s as [|c s]; [done|]. simpl.
  destruct (is_nl c); [done|]. by destruct (split_nl s).
Qed.

Lemma join_nl_cons_char (c : ascii) (l : string) (ls : list string) :
  join_nl (String c l :: ls) = String c (join_nl (l :: ls)).
Proof. by destruct ls. Qed.

Lemma join_split (s : string) : join_nl (split_nl s) = s.
Proof.
  induction s as [|c s IH]; [done|].
  simpl. pose proof (split_nl_nonempty s) as Hne.
  destruct (split_nl s) as [|l ls] eqn:E; [done|].
  destruct (is_nl c) eqn:Hc.
  - apply is_nl_true in Hc as ->.
    change (join_nl ("" :: l :: ls)) with (String nl (join_nl (l :: ls))).
    by rewrite IH.
  - by rewrite join_nl_cons_char, IH.
Qed.

Lemma split_nl_no_nl (s : string) : Forall (λ l, no_nl l = true) (split_nl s).
Proof.
  induction s as [|c s IH]; simpl; [by repeat constructor|].
  destruct (is_nl c) eqn:Hc; [by constructor|].
  destruct (split_nl s) as [|l ls]; [by repeat constructor; simpl; rewrite Hc|].
  apply Forall_cons in IH as [Hl Hls]. constructor; [|done].
  simpl. by rewrite Hc, Hl.
Qed.

Lemma split_nl_line (s : string) : no_nl s = true → split_nl s = [s].
Proof.
  induction s as [|c s IH]; [done|].
  simpl. intros [Hc%negb_true_iff Hs]%andb_true_iff. by rewrite Hc, IH.
Qed.

Lemma join_nl_app (l1 l2 : list string) :
  l1 ≠ [] → l2 ≠ [] →
  join_nl (l1 ++ l2) = join_nl l1 +:+ NL +:+ join_nl l2.
Proof.
  intros H1 H2. induction l1 as [|x l1 IH]; [done|].
  destruct l1 as [|y l1].
  - simpl. by destruct l2.
  - change (join_nl ((x :: y :: l1) ++ l2))
      with (x +:+ NL +:+ join_nl ((y :: l1) ++ l2)).
    rewrite IH by done.
    change (join_nl (x :: y :: l1)) with (x +:+ NL +:+ join_nl (y :: l1)).
    by rewrite !str_app_assoc.
Qed.

(** Joining segments is joining their lines. *)
Lemma join_nl_concat (segs : list string) :
  join_nl segs = join_nl (concat (split_nl <$> segs)).
Proof.
  induction segs as [|x segs IH]; [done|].
  rewrite fmap_cons, concat_cons. destruct segs as [|y segs].
  - simpl. by rewrite app_nil_r, join_split.
  - rewrite join_nl_app.
    + rewrite join_split, <- IH. done.
    + apply split_nl_nonempty.
    + rewrite fmap_cons, concat_cons. intros [E _]%app_eq_nil.
      by apply split_nl_nonempty in E.
Qed.

Lemma join_nl_merge (x c : string) (conts : list string) :
  join_nl ((x +:+ NL +:+ c) :: conts) = join_nl (x :: c :: conts).
Proof.
  destruct conts as [|d conts]; [done|].
  change (join_nl (x :: c :: d :: conts))
    with (x +:+ NL +:+ c +:+ NL +:+ join_nl (d :: conts)).
  change (join_nl ((x +:+ NL +:+ c) :: d :: conts))
    with ((x +:+ NL +:+ c) +:+ NL +:+ join_nl (d :: conts)).
  by rewrite !str_app_assoc.
Qed.

End StringFacts.

(** ** The parser *)

Section ParserFacts.
Import PyStr Report.

Lemma regex_not_header (l : string) :
  regexLineStart l = true → startswith prefixModuleName l = false.
Proof.
  destruct l as [|c l]; [done|].
  unfold prefixModuleName. cbn [startswith].
  destruct (Ascii.eqb_spec "*"%char c) as [<-|]; [|done].
  by destruct l as [|? [|? [|? [|? [|? ?]]]]].
Qed.

Lemma append_last_snoc (ws : list string) (w line : string) :
  append_last (ws ++ [w]) line = ws ++ [w +:+ NL +:+ line].
Proof.
  induction ws as [|x ws IH]; [done|].
  simpl. rewrite IH. by destruct ws.
Qed.

(** What the loop body does with a line that is neither a header nor
    the start of a warning. *)
Lemma processLine_other (st : pstate) (line : string) :
  other_line line = true →
  (warningsCurrentModule st = [] → processLine st line = st) ∧
  (∀ ws w, warningsCurrentModule st = ws ++ [w] →
     processLine st line =
     PState (warnings st) (currentModule st) (ws ++ [w +:+ NL +:+ line])).
Proof.
  unfold other_line, processLine.
  intros [->%negb_true_iff ->%negb_true_iff]%andb_true_iff.
  split.
  - by intros ->.
  - intros ws w E. rewrite E, append_last_snoc. by destruct ws.
Qed.

Lemma process_conts w cm wcm (x : string) (conts : list string) :
  Forall (λ l, other_line l = true) conts →
  foldl processLine (PState w cm (wcm ++ [x])) conts
  = PState w cm (wcm ++ [join_nl (x :: conts)]).
Proof.
  revert x. induction conts as [|c conts IH]; intros x; [done|].
  intros [Hc Hconts]%Forall_cons. cbn [foldl].
  destruct (processLine_other (PState w cm (wcm ++ [x])) c Hc) as [_ ->%(fun H => H wcm x eq_refl)].
  cbn [warnings currentModule]. rewrite IH by done.
  by rewrite join_nl_merge.
Qed.

Lemma valid_record_inv (r : string) :
  valid_record r = true →
  ∃ l0 conts, split_nl r = l0 :: conts ∧ regexLineStart l0 = true ∧
    Forall (λ l, other_line l = true) conts ∧ last (split_nl r) ≠ Some "".
Proof.
  unfold valid_record. destruct (split_nl r) as [|l0 conts]; [done|].
  intros [[H1 H2]%andb_true_iff H3%bool_decide_eq_true]%andb_true_iff.
  exists l0, conts. repeat split; try done.
  apply Forall_forall. intros l Hl. rewrite forallb_forall in H2.
  by apply H2, list_elem_of_In.
Qed.

Lemma process_record w cm wcm (r : string) :
  valid_record r = true →
  foldl processLine (PState w cm wcm) (split_nl r) = PState w cm (wcm ++ [r]).
Proof.
  intros (l0 & conts & E & H0 & Hc & _)%valid_record_inv.
  rewrite <- (join_split r) at 2. rewrite E. cbn [foldl].
  unfold processLine at 2. rewrite (regex_not_header l0 H0), H0.
  cbn [warnings currentModule warningsCurrentModule].
  by apply process_conts.
Qed.

Lemma process_records w cm wcm (rs : list string) :
  Forall (λ r, valid_record r = true) rs →
  foldl processLine (PState w cm wcm) (concat (split_nl <$> rs))
  = PState w cm (wcm ++ rs).
Proof.
  revert wcm. induction rs as [|r rs IH]; intros wcm.
  - by rewrite app_nil_r.
  - intros [Hr Hrs]%Forall_cons.
    rewrite fmap_cons, concat_cons, foldl_app, process_record by done.
    rewrite IH by done. by rewrite <- app_assoc.
Qed.

Lemma valid_name_inv (n : string) :
  valid_name n = true →
  n ≠ "" ∧ no_nl n = true ∧ contains prefixModuleName n = false.
Proof.
  unfold valid_name.
  intros [[H1%negb_true_iff H2]%andb_true_iff H3%negb_true_iff]%andb_true_iff.
  repeat split; try done. intros ->. done.
Qed.

Lemma process_header (st : pstate) (n : string) :
  contains prefixModuleName n = false →
  processLine st (prefixModuleName +:+ n) = PState (flush st) (Some n) [].
Proof.
  intros Hn. unfold processLine.
  by rewrite startswith_app, replace_prefix.
Qed.

Lemma flush_named w (n : string) ws :
  n ≠ "" → flush (PState w (Some n) ws) = <[n := list_to_set ws]> w.
Proof. by destruct n. Qed.


Lemma report_lines_cons n errs items :
  no_nl n = true →
  report_lines ((n, errs) :: items)
  = (prefixModuleName +:+ n) :: concat (split_nl <$> errs) ++ report_lines items.
Proof.
  intros Hn. unfold report_lines. cbn [allNewErrors].
  rewrite fmap_cons, concat_cons, fmap_app, concat_app.
  by rewrite split_nl_line by (by apply no_nl_app).
Qed.


Lemma process_items (items : list (string * list string)) (st : pstate) :
  Forall (λ it, valid_item it = true) items →
  flush (foldl processLine st (report_lines items))
  = foldl store (flush st) items.
Proof.
  revert st. induction items as [|[n errs] items IH]; intros st; [done|].
  intros [[Hn Herrs]%andb_true_iff Hitems]%Forall_cons. cbn [fst snd] in *.
  apply valid_name_inv in Hn as (Hne & Hnl & Hc).
  rewrite report_lines_cons by done. cbn [foldl].
  rewrite process_header, foldl_app by done.
  rewrite process_records.
  2:{ apply Forall_forall. intros r Hr. rewrite forallb_forall in Herrs.
      by apply Herrs, list_elem_of_In. }
  rewrite IH by done. by rewrite flush_named.
Qed.

End ParserFacts.

(** ** Round trip of the report text *)

Section RoundTrip.
Import PyStr Report.

Lemma last_concat_split (segs : list string) :
  Forall (λ seg, last (split_nl seg) ≠ Some "") segs →
  last (concat (split_nl <$> segs)) ≠ Some "".
Proof.
  induction segs as [|x segs IH]; [done|].
  intros [Hx Hsegs]%Forall_cons.
  rewrite fmap_cons, concat_cons, last_app.
  destruct (last (concat (split_nl <$> segs))) eqn:E; [|done].
  by apply IH.
Qed.

Lemma allNewErrors_last (items : list (string * list string)) :
  Forall (λ it, valid_item it = true) items →
  Forall (λ seg, last (split_nl seg) ≠ Some "") (allNewErrors items).
Proof.
  induction items as [|[n errs] items IH]; [constructor|].
  intros [[Hn Herrs]%andb_true_iff Hitems]%Forall_cons. cbn [fst snd] in *.
  apply valid_name_inv in Hn as (Hne & Hnl & Hc).
  cbn [allNewErrors]. constructor; [|apply Forall_app; split; [|by apply IH]].
  - rewrite split_nl_line by (by apply no_nl_app). done.
  - apply Forall_forall. intros r Hr. rewrite forallb_forall in Herrs.
    apply list_elem_of_In, Herrs, valid_record_inv in Hr.
    by destruct Hr as (? & ? & _ & _ & _ & ?).
Qed.

Lemma report_lines_no_nl (items : list (string * list string)) :
  Forall (λ l, no_nl l = true) (report_lines items).
Proof.
  unfold report_lines. induction (allNewErrors items) as [|x segs IH]; [constructor|].
  rewrite fmap_cons, concat_cons. apply Forall_app. split; [|done].
  apply split_nl_no_nl.
Qed.

Lemma to_dict_cons n errs (items : list (string * list string)) :
  to_dict ((n, errs) :: items) = <[n := list_to_set errs]> (to_dict items).
Proof. done. Qed.

Lemma to_dict_lookup_None n (items : list (string * list string)) :
  n ∉ items.*1 → to_dict items !! n = None.
Proof.
  intros Hn. apply not_elem_of_list_to_map_1.
  by rewrite <- list_fmap_compose.
Qed.

Lemma foldl_store (items : list (string * list string)) acc :
  NoDup items.*1 → foldl store acc items = to_dict items ∪ acc.
Proof.
  revert acc. induction items as [|[n errs] items IH]; intros acc.
  - intros _. unfold to_dict. simpl. by rewrite (left_id_L ∅ (∪)).
  - rewrite fmap_cons. intros [Hn Hnd]%NoDup_cons. cbn [foldl fst].
    rewrite IH by done. unfold store at 1. cbn [fst snd].
    rewrite to_dict_cons, <- insert_union_l.
    by rewrite insert_union_r by (by apply to_dict_lookup_None).
Qed.

(** Parsing the text formatted in any iteration order gives back the
    dictionary the items came from. *)
Lemma computeWarnings_formatItems (items : list (string * list string)) :
  NoDup items.*1 → Forall (λ it, valid_item it = true) items →
  computeWarnings (formatItems items) = to_dict items.
Proof.
  intros Hnd Hv. unfold computeWarnings, formatItems, computeWarningsLines.
  rewrite join_nl_concat, lines_join.
  - fold (report_lines items). rewrite process_items by done.
    rewrite foldl_store by done.
    change (flush initial) with (∅ : gmap string (gset string)).
    by rewrite (right_id_L ∅ (∪)).
  - apply report_lines_no_nl.
  - by apply last_concat_split, allNewErrors_last.
Qed.

Lemma enumerates_valid d (items : list (string * list string)) :
  wellformed d → enumerates d items →
  Forall (λ it, valid_item it = true) items.
Proof.
  intros Hwf [Hnd <-]. apply Forall_forall. intros [n errs] Hin.
  assert (to_dict items !! n = Some (list_to_set errs)) as Hl.
  { apply elem_of_list_to_map_1.
    - by rewrite <- list_fmap_compose.
    - apply (list_elem_of_fmap_2
               (λ it : string * list string,
                  (it.1, list_to_set it.2 : gset string))) in Hin.
      exact Hin. }
  destruct (Hwf _ _ Hl) as [Hn Hs]. unfold valid_item. cbn [fst snd].
  rewrite Hn. simpl. apply forallb_forall. intros r Hr.
  apply Hs, elem_of_list_to_set. by apply list_elem_of_In.
Qed.

Lemma dict_items_enumerates (d : gmap string (gset string)) :
  enumerates d (dict_items d).
Proof.
  unfold enumerates, dict_items, to_dict. split.
  - rewrite <- list_fmap_compose.
    rewrite (list_fmap_ext _ fst (map_to_list d) ) by done.
    apply NoDup_fst_map_to_list.
  - rewrite <- list_fmap_compose.
    rewrite (list_fmap_ext _ id (map_to_list d)).
    + rewrite list_fmap_id. apply list_to_map_to_list.
    + intros i [k s] _. simpl. by rewrite list_to_set_elements_L.
Qed.

Lemma formatNewErrors_items (d : gmap string (gset string)) :
  formatNewErrors d = formatItems (dict_items d).
Proof.
  unfold formatNewErrors, formatItems. case_decide as E; [|done].
  subst d. unfold dict_items. by rewrite map_to_list_empty.
Qed.

Lemma wellformed_check (d : gmap string (gset string)) :
  forallb valid_item (dict_items d) = true → wellformed d.
Proof.
  intros H n s Hl. rewrite forallb_forall in H.
  specialize (H (n, elements s)). unfold valid_item in H. cbn [fst snd] in H.
  apply andb_true_iff in H as [Hn Hs].
  - split; [done|]. intros r Hr. rewrite forallb_forall in Hs.
    by apply Hs, list_elem_of_In, elem_of_elements.
  - apply list_elem_of_In. unfold dict_items.
    apply (list_elem_of_fmap_2 (λ kv, (kv.1, elements kv.2)) _ (n, s)).
    by apply elem_of_map_to_list.
Qed.

End RoundTrip.


Section ReportClaims.
Import PyStr Report Examples.

(** C1 (amended): when the module names of a report are non-empty and
    contain neither a line break nor the module-header prefix, and each
    warning record has a primary line starting with a message id, only
    continuation lines that are neither headers nor start with a message
    id, and no final line break, then parsing the formatted text of the
    report gives the report back, in whatever order the modules and the
    warnings are written out. *)
Theorem roundtrip_wellformed (d : gmap string (gset string)) :
  wellformed d →
  (∀ items, enumerates d items → computeWarnings (formatItems items) = d) ∧
  computeWarnings (formatNewErrors d) = d.
Proof.
  intros Hwf.
  assert (∀ items, enumerates d items → computeWarnings (formatItems items) = d)
    as Hall.
  { intros items Hen. pose proof (enumerates_valid d items Hwf Hen) as Hv.
    destruct Hen as [Hnd <-]. by apply computeWarnings_formatItems. }
  split; [done|].
  rewrite formatNewErrors_items. apply Hall, dict_items_enumerates.
Qed.

Lemma roundtrip_wellformed_witness :
  wellformed scenarioA ∧
  computeWarnings (formatNewErrors scenarioA) = scenarioA.
Proof.
  assert (wellformed scenarioA) as H
    by (apply wellformed_check; vm_compute; reflexivity).
  split; [exact H|].
  exact (proj2 (roundtrip_wellformed scenarioA H)).
Defined.

(** The parser itself produces [trailingBreak]. *)
Example trailingBreak_parsed : computeWarnings trailingBreakText = trailingBreak.
Proof. vm_compute. reflexivity. Qed.

(** C1, as stated, fails: the report [trailingBreak], whose only record
    has a primary line starting with a message id, is not what parsing
    its formatted text returns. *)
Lemma roundtrip_counterexample :
  ¬ (∀ d : gmap string (gset string),
       (∀ n s r, d !! n = Some s → r ∈ s → primary_line_matches r = true) →
       computeWarnings (formatNewErrors d) = d).
Proof.
  intros H. specialize (H trailingBreak).
  assert (computeWarnings (formatNewErrors trailingBreak) = trailingBreak) as E.
  { apply H. unfold trailingBreak. intros n s r Hl Hr.
    apply lookup_singleton_Some in Hl as [<- <-].
    apply elem_of_singleton in Hr as ->.
    vm_compute. reflexivity. }
  apply (f_equal (λ m, elements <$> m !! "foo")) in E.
  vm_compute in E. discriminate E.
Qed.

(** C2: the dictionary of new errors holds, for each module of the
    current report, the warnings the baseline does not have for that
    module, when there are any; its modules are modules of the current
    report; the diff of a report with itself is empty; [generateDiff]
    returns the text of this dictionary. *)
Theorem newErrors_spec (previous current : gmap string (gset string)) :
  (∀ k, newErrors previous current !! k =
        match current !! k with
        | Some s =>
            if decide (s ∖ default ∅ (previous !! k) = ∅) then None
            else Some (s ∖ default ∅ (previous !! k))
        | None => None
        end) ∧
  dom (newErrors previous current) ⊆ dom current ∧
  newErrors current current = ∅ ∧
  (∀ file result,
     generateDiff file result =
     formatNewErrors (newErrors (computeWarnings file) (computeWarnings result))).
Proof.
  assert (∀ prev cur k, newErrors prev cur !! k =
        match cur !! k with
        | Some s =>
            if decide (s ∖ default ∅ (prev !! k) = ∅) then None
            else Some (s ∖ default ∅ (prev !! k))
        | None => None
        end) as Hlook.
  { intros prev cur. unfold newErrors.
    apply (map_fold_weak_ind (λ r m, ∀ k, r !! k =
        match m !! k with
        | Some s =>
            if decide (s ∖ default ∅ (prev !! k) = ∅) then None
            else Some (s ∖ default ∅ (prev !! k))
        | None => None
        end)).
    - intros k. by rewrite !lookup_empty.
    - intros i x m r Hi IH k. cbn zeta.
      destruct (decide (i = k)) as [->|Hne].
      + rewrite lookup_insert_eq. case_decide.
        * by rewrite IH, Hi.
        * by rewrite lookup_insert_eq.
      + rewrite (lookup_insert_ne m) by done. case_decide.
        * apply IH.
        * rewrite lookup_insert_ne by done. apply IH. }
  split; [apply Hlook|]. split; [|split; [|done]].
  - intros k [s Hk]%elem_of_dom. apply elem_of_dom.
    rewrite Hlook in Hk. by destruct (current !! k).
  - apply map_eq. intros k. rewrite Hlook, lookup_empty.
    destruct (current !! k) as [s|]; [|done]. simpl.
    by rewrite decide_True by apply difference_diag_L.
Qed.

(** C7 (amended): a line that is neither a module header nor starts with
    a message id, empty or not, is dropped when no record is open in the
    current module, and is otherwise appended, after a line break, to
    the record opened last. *)
Theorem continuation_lines (st : pstate) (line : string) :
  is_header line = false → regexLineStart line = false →
  (warningsCurrentModule st = [] → processLine st line = st) ∧
  (∀ ws w, warningsCurrentModule st = ws ++ [w] →
     processLine st line =
     PState (warnings st) (currentModule st) (ws ++ [w +:+ NL +:+ line])).
Proof.
  intros H1 H2. apply processLine_other. unfold other_line.
  unfold is_header in H1. by rewrite H1, H2.
Qed.

Lemma continuation_lines_witness :
  processLine openRecord "" = PState ∅ (Some "foo") ["W0001: a" +:+ NL +:+ ""].
Proof.
  exact (proj2 (continuation_lines openRecord "" eq_refl eq_refl)
               [] "W0001: a" eq_refl).
Defined.

(** C7, as stated, fails: an empty line met while a record is open is
    appended to that record. *)
Lemma empty_line_counterexample :
  ¬ (∀ st line, is_header line = false → regexLineStart line = false →
       line = "" → processLine st line = st).
Proof.
  intros H. specialize (H openRecord "" eq_refl eq_refl eq_refl).
  vm_compute in H. discriminate H.
Qed.

End ReportClaims.

Section RepeatedHeaders.
Import PyStr Report Examples.

Lemma processLine_header (st : pstate) (line : string) :
  is_header line = true →
  processLine st line = PState (flush st) (Some (moduleName line)) [].
Proof. unfold is_header, processLine. by intros ->. Qed.

(** A line that is not a header leaves the dictionary and the current
    module alone, and what it does to the open records does not depend
    on them. *)
Lemma processLine_in_block w cm wcm (line : string) :
  is_header line = false →
  processLine (PState w cm wcm) line
  = PState w cm (warningsCurrentModule (processLine (PState ∅ None wcm) line)).
Proof.
  unfold is_header, processLine. intros ->.
  destruct (regexLineStart line); [done|]. by destruct wcm.
Qed.

Lemma foldl_in_block w cm wcm (block : list string) :
  Forall (λ l, is_header l = false) block →
  foldl processLine (PState w cm wcm) block
  = PState w cm (warningsCurrentModule (foldl processLine (PState ∅ None wcm) block)).
Proof.
  revert wcm. induction block as [|l block IH]; intros wcm; [done|].
  intros [Hl Hblock]%Forall_cons. cbn [foldl].
  rewrite (processLine_in_block w cm) by done. rewrite IH by done.
  by rewrite (processLine_in_block ∅ None wcm l) at 2 by done.
Qed.

Lemma flush_other_module (st : pstate) (n : string) :
  currentModule st ≠ Some n → flush st !! n = warnings st !! n.
Proof.
  unfold flush. intros Hcm. destruct (currentModule st) as [m|]; [|done].
  destruct (truthy (Some m)); [|done].
  rewrite lookup_insert_ne; [done|congruence].
Qed.

(** Blocks of other modules do not touch the entry of [n]. *)
Lemma later_blocks (n : string) (lines : list string) (st : pstate) :
  currentModule st ≠ Some n →
  Forall (λ l, is_header l = true → moduleName l ≠ n) lines →
  flush (foldl processLine st lines) !! n = warnings st !! n.
Proof.
  revert st. induction lines as [|l lines IH]; intros st Hcm.
  - intros _. by apply flush_other_module.
  - intros [Hl Hlines]%Forall_cons. cbn [foldl].
    destruct (is_header l) eqn:Hh.
    + rewrite processLine_header by done. rewrite IH; [|simpl|done].
      * by apply flush_other_module.
      * intros [= E]. by apply Hl.
    + destruct st as [w cm wcm]. rewrite processLine_in_block by done.
      by rewrite IH.
Qed.

(** C10 (amended): when the last header line of a non-empty module name
    [n] is followed by the lines [block] of its block, the parsed report
    maps [n] to the warnings of [block] alone, whatever lines came
    before that header. *)
Theorem repeated_header_overwrites
    (text : string) (pre block rest : list string) (line n : string) :
  strip_nl <$> readlines text = pre ++ line :: block ++ rest →
  is_header line = true → moduleName line = n → n ≠ "" →
  Forall (λ l, is_header l = false) block →
  match rest with [] => True | h :: _ => is_header h = true end →
  Forall (λ l, is_header l = true → moduleName l ≠ n) rest →
  computeWarnings text !! n = Some (list_to_set (blockWarnings block)).
Proof.
  intros Htext Hline <- Hn Hblock Hfirst Hrest.
  unfold computeWarnings, computeWarningsLines.
  rewrite Htext, foldl_app. cbn [foldl]. rewrite processLine_header by done.
  rewrite foldl_app, foldl_in_block by done.
  fold initial. fold (blockWarnings block).
  destruct rest as [|h rest].
  - cbn [foldl]. rewrite flush_named by done. apply lookup_insert_eq.
  - apply Forall_cons in Hrest as [Hh Hrest]. cbn [foldl].
    rewrite processLine_header by done. rewrite later_blocks; [|simpl|done].
    + cbn [warnings]. rewrite flush_named by done. apply lookup_insert_eq.
    + intros [= E]. by apply Hh.
Qed.

Lemma repeated_header_overwrites_witness :
  computeWarnings repeatedText !! "foo"
  = Some (list_to_set (blockWarnings ["W0002: b"])).
Proof.
  apply (repeated_header_overwrites repeatedText
           [prefixModuleName +:+ "foo"; "W0001: a"] ["W0002: b"] []
           (prefixModuleName +:+ "foo") "foo").
  - vm_compute. reflexivity.
  - reflexivity.
  - vm_compute. reflexivity.
  - discriminate.
  - repeat constructor.
  - exact I.
  - constructor.
Defined.

(** The warning of the first block of [repeatedText] is gone. *)
Example repeatedText_parsed :
  computeWarnings repeatedText = {[ "foo" := {[ "W0002: b" ]} ]}.
Proof. vm_compute. reflexivity. Qed.

(** C10, as stated, fails for the empty module name: the parser stores
    nothing under it, not even the warnings that follow its last header
    line. *)
Lemma repeated_header_counterexample :
  ¬ (∀ (text : string) (pre block rest : list string) (line n : string),
       strip_nl <$> readlines text = pre ++ line :: block ++ rest →
       is_header line = true → moduleName line = n →
       Forall (λ l, is_header l = false) block →
       match rest with [] => True | h :: _ => is_header h = true end →
       Forall (λ l, is_header l = true → moduleName l ≠ n) rest →
       computeWarnings text !! n = Some (list_to_set (blockWarnings block))).
Proof.
  intros H.
  specialize (H namelessText [prefixModuleName; "W0001: a"] ["W0002: b"] []
                prefixModuleName "").
  assert (computeWarnings namelessText !! "" = None) as E
    by (vm_compute; reflexivity).
  rewrite H in E; [discriminate E|..].
  - vm_compute. reflexivity.
  - reflexivity.
  - vm_compute. reflexivity.
  - repeat constructor.
  - exact I.
  - constructor.
Qed.

End RepeatedHeaders.


Section RegistryFacts.
Import Eff Registry.

Lemma list_remove_is_Some c l : c ∈ l → is_Some (list_remove c l).
Proof.
  induction l as [|y l IH]; [by intros ?%elem_of_nil|].
  intros Hin. simpl. case_decide; [by eexists|].
  apply elem_of_cons in Hin as [?|Hin]; [done|].
  destruct (IH Hin) as [l' ->]. by eexists.
Qed.

Lemma list_remove_None c l : c ∉ l → list_remove c l = None.
Proof.
  induction l as [|y l IH]; [done|].
  intros Hin. apply not_elem_of_cons in Hin as [? ?].
  simpl. rewrite decide_False by done. by rewrite IH.
Qed.

Lemma occurrences_remove x c l l' :
  list_remove c l = Some l' →
  occurrences x l = (if decide (x = c) then 1 else 0) + occurrences x l'.
Proof.
  revert l'. induction l as [|y l IH]; intros l'; [done|].
  simpl. destruct (decide (c = y)) as [->|Hne].
  - by intros [= ->].
  - destruct (list_remove c l) as [l''|]; [|done]. intros [= <-].
    simpl. rewrite (IH l'') by done. lia.
Qed.

Lemma occurrences_remove1 x c l :
  occurrences x (remove1 c l) =
  occurrences x l - (if decide (x = c) then 1 else 0).
Proof.
  unfold remove1. destruct (list_remove c l) as [l'|] eqn:E; simpl.
  - rewrite (occurrences_remove x c l l') by done. lia.
  - case_decide as Hx; [|lia]. subst x.
    assert (c ∉ l) as Hc.
    { intros Hin. apply list_remove_is_Some in Hin as [? ?]. congruence. }
    clear E. induction l as [|y l IH]; [done|].
    apply not_elem_of_cons in Hc as [? ?]. simpl.
    rewrite decide_False by done. by apply IH.
Qed.

Lemma occurrences_pos x l : x ∈ l ↔ 0 < occurrences x l.
Proof.
  induction l as [|y l IH]; simpl.
  - split; [by intros ?%elem_of_nil|lia].
  - rewrite elem_of_cons, IH. case_decide as E; [intuition lia|].
    split; [intros [?|?]; [done|lia]|]. intros ?. right. lia.
Qed.

Lemma occurrences_app x l1 l2 :
  occurrences x (l1 ++ l2) = occurrences x l1 + occurrences x l2.
Proof. induction l1 as [|y l1 IH]; simpl; [done|]. rewrite IH. lia. Qed.

Lemma occurrences_filter (P : Checker → bool) x l :
  occurrences x (List.filter P l) = if P x then occurrences x l else 0.
Proof.
  induction l as [|y l IH]; simpl; [by destruct (P x)|].
  destruct (P y) eqn:Hy; simpl; rewrite IH.
  - case_decide; [subst; by rewrite Hy|by destruct (P x)].
  - case_decide; [subst; by rewrite Hy|by destruct (P x)].
Qed.

Lemma remove1_subset c l x : x ∈ remove1 c l → x ∈ l.
Proof.
  rewrite !occurrences_pos, occurrences_remove1. lia.
Qed.

Lemma table_Some st k l : _checkers st !! k = Some l → table st k = l.
Proof. unfold table. by intros ->. Qed.

Lemma table_elem st k c : c ∈ table st k → _checkers st !! k = Some (table st k).
Proof.
  unfold table. destruct (_checkers st !! k); [done|]. by intros ?%elem_of_nil.
Qed.

(** [unregisterChecker] succeeds on a checker listed under its name. *)
Lemma unregisterChecker_ok c st :
  c ∈ table st (name c) → unregisterChecker c st = Ok tt (unregistered c st).
Proof.
  intros Hin. pose proof (table_elem _ _ _ Hin) as Hl.
  destruct (list_remove_is_Some _ _ Hin) as [l' Hl'].
  unfold unregisterChecker, unregistered, bind, get, put, ret. simpl.
  rewrite Hl, Hl'. simpl. unfold remove1 at 1. rewrite Hl'. simpl.
  case_decide as Hr; simpl.
  - case_decide as Ho; simpl.
    + destruct (list_remove_is_Some _ _ Ho) as [o' Ho'].
      unfold remove1. by rewrite Ho'.
    + unfold remove1. by rewrite list_remove_None.
  - assert (delete c (_reports st) = _reports st) as ->.
    { apply delete_id. by apply eq_None_not_Some. }
    case_decide as Ho; simpl.
    + destruct (list_remove_is_Some _ _ Ho) as [o' Ho'].
      unfold remove1. by rewrite Ho'.
    + unfold remove1. by rewrite list_remove_None.
Qed.

(** It raises on a checker that is not listed under its name. *)
Lemma unregisterChecker_raises c st :
  c ∉ table st (name c) → ∃ e, unregisterChecker c st = Raise e st.
Proof.
  intros Hin. unfold unregisterChecker, bind, get, put, ret, raise, table in *.
  simpl. destruct (_checkers st !! name c) as [l|]; simpl in *.
  - rewrite list_remove_None by done. by eexists.
  - by eexists.
Qed.

Lemma table_unregistered c st k :
  c ∈ table st (name c) →
  table (unregistered c st) k =
  if decide (name c = k) then remove1 c (table st k) else table st k.
Proof.
  intros Hin. unfold table at 1. unfold unregistered. simpl.
  rewrite lookup_insert. case_decide; [by subst|done].
Qed.

Lemma indexed_unregistered c st :
  c ∈ table st (name c) → indexed_by_name st → indexed_by_name (unregistered c st).
Proof.
  intros Hin Hidx k l x Hl Hx.
  apply table_Some in Hl. rewrite table_unregistered in Hl by done. subst l.
  case_decide.
  - apply remove1_subset in Hx. subst k.
    eapply Hidx; [by eapply table_elem|done].
  - eapply Hidx; [by eapply table_elem|done].
Qed.

End RegistryFacts.


Section RegistryClaims.
Import Eff Registry RegistryExamples.

Lemma elem_of_filter (P : Checker → bool) (l : list Checker) c :
  c ∈ List.filter P l ↔ c ∈ l ∧ P c = true.
Proof. rewrite !list_elem_of_In. apply filter_In. Qed.

Lemma elem_of_dict_keys (d : gmap string (list Checker)) k :
  k ∈ dict_keys d ↔ is_Some (d !! k).
Proof.
  unfold dict_keys. rewrite list_elem_of_fmap. split.
  - intros [[k' l] [-> Hin]]. apply elem_of_map_to_list in Hin. by eexists.
  - intros [l Hl]. exists (k, l). split; [done|]. by apply elem_of_map_to_list.
Qed.

Lemma findUselessCheckers_value A st :
  findUselessCheckers A st = Ok (uselessCheckers A st) st.
Proof. reflexivity. Qed.

Lemma elem_of_uselessCheckers A st c :
  c ∈ uselessCheckers A st ↔ registered st c ∧ useless A c = true.
Proof.
  unfold uselessCheckers, registered. rewrite list_elem_of_bind. split.
  - intros (k & [Hc Hu]%elem_of_filter & [l Hl]%elem_of_dict_keys).
    rewrite Hl in Hc. simpl in Hc. split; [by exists k, l|done].
  - intros [(k & l & Hl & Hc) Hu]. exists k. split.
    + apply elem_of_filter. rewrite Hl. by split.
    + apply elem_of_dict_keys. by eexists.
Qed.

Lemma occurrences_bind_keys x (P : Checker → bool) (T : string → list Checker)
    (keys : list string) :
  NoDup keys → (∀ k, k ∈ keys → k ≠ name x → x ∉ T k) →
  occurrences x (keys ≫= λ k, List.filter P (T k)) =
  if decide (name x ∈ keys) then occurrences x (List.filter P (T (name x))) else 0.
Proof.
  induction keys as [|k keys IH]; [done|].
  intros [Hk Hnd]%NoDup_cons Hout.
  change ((k :: keys) ≫= λ k, List.filter P (T k))
    with (List.filter P (T k) ++ (keys ≫= λ k, List.filter P (T k))).
  rewrite occurrences_app, IH; [|done|].
  2:{ intros k' Hk'. apply Hout. by right. }
  destruct (decide (k = name x)) as [->|Hne].
  - rewrite decide_False by done. rewrite decide_True by left. lia.
  - assert (occurrences x (List.filter P (T k)) = 0) as ->.
    { rewrite occurrences_filter. destruct (P x); [|done].
      assert (x ∉ T k) as Hx by (apply Hout; [left|done]).
      rewrite occurrences_pos in Hx. lia. }
    simpl. case_decide as E1; case_decide as E2; try done.
    + exfalso. apply E2. by right.
    + exfalso. apply elem_of_cons in E2 as [?|?]; [congruence|done].
Qed.

Lemma occurrences_uselessCheckers A st x :
  indexed_by_name st →
  occurrences x (uselessCheckers A st) =
  if useless A x then occurrences x (table st (name x)) else 0.
Proof.
  intros Hidx. unfold uselessCheckers.
  rewrite (occurrences_bind_keys x (useless A)
             (λ k, default [] (_checkers st !! k))).
  - rewrite occurrences_filter. fold (table st (name x)).
    case_decide as Hk; [done|].
    assert (table st (name x) = []) as ->; [|by destruct (useless A x)].
    unfold table. destruct (_checkers st !! name x) eqn:E; [|done].
    exfalso. apply Hk, elem_of_dict_keys. by eexists.
  - apply NoDup_fst_map_to_list.
  - intros k [l Hl]%elem_of_dict_keys Hne Hx. rewrite Hl in Hx. simpl in Hx.
    apply Hne. symmetry. by eapply Hidx.
Qed.

(** The loop of [restrictCheckers]: when every checker of the list is
    listed in the table as often as the loop meets it, no call raises,
    and a checker met as often as the table and the provider list hold
    it is gone from the three structures at the end. *)
Lemma for_each_unregister (c : Checker) (cs : list Checker) (st : PyLinter) :
  indexed_by_name st →
  (∀ x, occurrences x cs ≤ occurrences x (table st (name x))) →
  occurrences c cs = occurrences c (table st (name c)) →
  occurrences c (options_providers st) ≤ occurrences c cs →
  (is_Some (_reports st !! c) → c ∈ cs) →
  ∃ st', for_each cs unregisterChecker st = Ok tt st' ∧
         indexed_by_name st' ∧ (c ∉ table st' (name c)) ∧
         _reports st' !! c = None ∧ (c ∉ options_providers st').
Proof.
  revert st. induction cs as [|c1 cs IH]; intros st Hidx Hle Heq Hopt Hrep.
  - exists st. simpl in *. repeat split; try done.
    + rewrite occurrences_pos. lia.
    + apply eq_None_not_Some. intros Hs. by apply Hrep, elem_of_nil in Hs.
    + rewrite occurrences_pos. lia.
  - assert (c1 ∈ table st (name c1)) as Hin.
    { apply occurrences_pos. specialize (Hle c1). simpl in Hle.
      rewrite decide_True in Hle by done. lia. }
    cbn [for_each]. unfold bind at 1. rewrite unregisterChecker_ok by done.
    apply IH.
    + by apply indexed_unregistered.
    + intros x. rewrite table_unregistered by done. specialize (Hle x).
      simpl in Hle. destruct (decide (name c1 = name x)) as [En|En].
      * rewrite occurrences_remove1. destruct (decide (x = c1)); lia.
      * rewrite decide_False in Hle by congruence. lia.
    + rewrite table_unregistered by done. simpl in Heq.
      destruct (decide (name c1 = name c)) as [En|En].
      * rewrite occurrences_remove1. destruct (decide (c = c1)); lia.
      * rewrite decide_False in Heq by congruence. lia.
    + simpl in *. rewrite occurrences_remove1. destruct (decide (c = c1)); lia.
    + simpl. rewrite lookup_delete. case_decide as E.
      * by intros [? ?].
      * intros Hs. apply Hrep, elem_of_cons in Hs as [?|?]; [congruence|done].
Qed.

(** C3 (amended): in a registry whose table lists each checker under its
    own name and whose provider list holds [c] no more often than the
    list of the table under the name of [c], a registered checker [c]
    without an allowed message is, after [restrictCheckers], in none of
    the three structures; the call does not raise. *)
Theorem restrictCheckers_removes (A : list string) (st : PyLinter) (c : Checker) :
  indexed_by_name st → registered st c →
  occurrences c (options_providers st) ≤ occurrences c (table st (name c)) →
  msgs c ∩ list_to_set A = ∅ →
  ∃ st', restrictCheckers A st = Ok tt st' ∧
         ¬ registered st' c ∧ _reports st' !! c = None ∧
         c ∉ options_providers st'.
Proof.
  intros Hidx Hreg Hopt Hmsgs.
  assert (useless A c = true) as Hu by (by apply bool_decide_eq_true).
  assert (c ∈ uselessCheckers A st) as Hc by (by apply elem_of_uselessCheckers).
  destruct (for_each_unregister c (uselessCheckers A st) st)
    as (st' & Hrun & Hidx' & Htab & Hrep & Hopts); try done.
  - intros x. rewrite occurrences_uselessCheckers by done.
    destruct (useless A x); lia.
  - rewrite occurrences_uselessCheckers by done. by rewrite Hu.
  - rewrite occurrences_uselessCheckers by done. by rewrite Hu.
  - exists st'. split; [|split; [|done]].
    + unfold restrictCheckers, bind. by rewrite findUselessCheckers_value.
    + intros (k & l & Hl & Hin). pose proof (Hidx' _ _ _ Hl Hin) as <-.
      apply Htab. by rewrite (table_Some _ _ _ Hl).
Qed.

Lemma indexed_check_sound st : indexed_check st = true → indexed_by_name st.
Proof.
  unfold indexed_check. rewrite forallb_forall. intros H k l c Hl Hc.
  specialize (H (k, l)). rewrite forallb_forall in H. simpl in H.
  assert (bool_decide (name c = k) = true) as Hb.
  { apply H.
    - apply list_elem_of_In. by apply elem_of_map_to_list.
    - by apply list_elem_of_In. }
  by apply bool_decide_eq_true in Hb.
Qed.

Lemma restrictCheckers_removes_witness :
  ∃ st', restrictCheckers ["W9001"] linter0 = Ok tt st' ∧
         ¬ registered st' formatChecker ∧
         _reports st' !! formatChecker = None ∧
         formatChecker ∉ options_providers st'.
Proof.
  apply (restrictCheckers_removes ["W9001"] linter0 formatChecker).
  - apply indexed_check_sound. vm_compute. reflexivity.
  - exists "format", [formatChecker]. split; [vm_compute; reflexivity|].
    by left.
  - vm_compute. lia.
  - vm_compute. reflexivity.
Defined.

(** C3, as stated, fails: [unregisterChecker] takes one occurrence of the
    checker out of the option providers for each occurrence in the
    table, so a checker listed once in the table and twice among the
    providers is still a provider after [restrictCheckers]. *)
Lemma restrictCheckers_counterexample :
  ¬ (∀ (A : list string) (st : PyLinter) (c : Checker),
       indexed_by_name st → registered st c →
       msgs c ∩ list_to_set A = ∅ →
       ∃ st', restrictCheckers A st = Ok tt st' ∧
              ¬ registered st' c ∧ _reports st' !! c = None ∧
              c ∉ options_providers st').
Proof.
  intros H.
  destruct (H ["C0301"] linter2 headerChecker) as (st' & Hrun & _ & _ & Hopt).
  - apply indexed_check_sound. vm_compute. reflexivity.
  - exists "header", [headerChecker]. split; [vm_compute; reflexivity|by left].
  - vm_compute. reflexivity.
  - assert (restrictCheckers ["C0301"] linter2
            = Ok tt (MkLinter {[ "header" := [] ]} ∅ [headerChecker])) as E
      by (vm_compute; reflexivity).
    rewrite E in Hrun. injection Hrun as <-. apply Hopt. by left.
Qed.




(** C9: [findUselessCheckers] returns the registered checkers none of
    whose messages is allowed, and returns them in the state it was
    called in. *)
Theorem findUselessCheckers_spec (A : list string) (st : PyLinter) :
  ∃ cs, findUselessCheckers A st = Ok cs st ∧
        ∀ c, c ∈ cs ↔ registered st c ∧ msgs c ∩ list_to_set A = ∅.
Proof.
  exists (uselessCheckers A st). split; [done|].
  intros c. rewrite elem_of_uselessCheckers. unfold useless.
  by rewrite bool_decide_eq_true.
Qed.

End RegistryClaims.


Section OrchestratorClaims.
Import Eff PyStr Report Orchestrator OrchestratorExamples.

Variable load_command_line_configuration :
  (string → M world unit) → list string → M world (list string).
Variable engine_report : list string → string.

Abbreviation run := (run load_command_line_configuration engine_report).
Abbreviation parse := (load_command_line_configuration _optionCallbackDiff).

Lemma remap_other (code : exit_code) :
  code ≠ ExitInt 2 → remap (SystemExit code) = SystemExit code.
Proof.
  destruct code as [|n]; [done|]. intros Hn.
  destruct n as [|p|p]; try done.
  destruct p as [p|p|]; try done. destruct p; try done.
Qed.

(** An exception of the option parser leaves [run] through the
    [except] clause, before anything else is done. *)
Lemma run_parser_raises (args : list string) (w w' : world) (e : exn) :
  parse args (set_reporter_output ToOutputStream w) = Raise e w' →
  run args w = Raise (remap e) w'.
Proof.
  intros H. unfold Orchestrator.run, bind, modify, try_catch, raise.
  by rewrite H.
Qed.

(** C8: a termination of the engine's option parser with exit status 2
    leaves [run] as a termination with status 32, and one with any other
    status leaves it with that status. *)
Theorem run_exit_status (args : list string) (w w' : world) (code : exit_code) :
  parse args (set_reporter_output ToOutputStream w) = Raise (SystemExit code) w' →
  (code = ExitInt 2 → run args w = Raise (SystemExit (ExitInt 32)) w') ∧
  (code ≠ ExitInt 2 → run args w = Raise (SystemExit code) w').
Proof.
  intros H%run_parser_raises. rewrite H. split.
  - by intros ->.
  - intros Hc. by rewrite remap_other.
Qed.

(** The callback of [--diff] on a path that does not exist: the message
    goes to the error stream and [SystemExit] carries no status. *)
Lemma optionCallbackDiff_missing (val : string) (w : world) :
  files w !! val = None →
  _optionCallbackDiff val w =
  Raise (SystemExit ExitNone) (write_stderr (errorResultNotExist val +:+ NL) w).
Proof.
  intros H. unfold _optionCallbackDiff, bind, get, modify, raise, path_exists.
  rewrite bool_decide_eq_false_2; [done|].
  rewrite H. by intros [? ?].
Qed.

(** C5 (what the code does): when the option parser hands a path that
    does not exist to the callback of [--diff] and lets its termination
    through, [run] writes the message to the error stream and terminates
    before any evaluation of the engine, and the exit status is 0. *)
Theorem run_missing_result_file (args : list string) (val : string) (w : world) :
  files w !! val = None →
  (∀ cb e s', cb val (set_reporter_output ToOutputStream w) = Raise e s' →
     load_command_line_configuration cb args (set_reporter_output ToOutputStream w)
     = Raise e s') →
  ∃ code w',
    run args w = Raise (SystemExit code) w' ∧
    stderr w' = stderr w +:+ "Error: Result file '" +:+ val +:+ "' does not exist." +:+ NL ∧
    checked w' = checked w ∧
    exit_status code = 0%Z.
Proof.
  intros Hf Hload.
  pose proof (optionCallbackDiff_missing val (set_reporter_output ToOutputStream w) Hf) as Hcb.
  apply Hload, run_parser_raises in Hcb.
  eexists _, _. split; [exact Hcb|]. simpl.
  unfold errorResultNotExist. by rewrite !str_app_assoc.
Qed.

(** C6 (what the code does): when the option parser leaves no argument,
    [run] writes the help text and goes on to one evaluation of the
    engine, on the empty list. *)
Theorem run_without_arguments (args : list string) (w w1 : world) :
  parse args (set_reporter_output ToOutputStream w) = Ok [] w1 →
  ∃ tail,
    outputStream (final_state (run args w)) = outputStream w1 +:+ helpText +:+ tail ∧
    checked (final_state (run args w)) = checked w1 ++ [[]].
Proof.
  intros H.
  unfold Orchestrator.run, bind, modify, try_catch, get, ret, displayHelp, check.
  rewrite H. clear H.
  unfold diff_requested, prepareDiff, showDiffResults, bind, modify, get, raise.
  assert (∀ a b : string, a +:+ b = a +:+ b +:+ "") as Hnil
    by (intros a b; by rewrite str_app_nil_r).
  destruct w1 as [out err buf sink opt fs path cwd chk]. simpl.
  destruct opt as [[|a p]|]; simpl.
  - destruct sink; simpl; eexists; (split; [|done]);
      [by rewrite str_app_assoc|apply Hnil..].
  - destruct (fs !! String a p) as [previous|]; simpl; eexists;
      (split; [|done]); [by rewrite str_app_assoc|apply Hnil].
  - destruct sink; simpl; eexists; (split; [|done]);
      [by rewrite str_app_assoc|apply Hnil..].
Qed.

End OrchestratorClaims.

Section OrchestratorWitnesses.
Import Eff PyStr Report Orchestrator OrchestratorExamples.

Lemma run_exit_status_witness :
  run (λ _ _, raise (SystemExit (ExitInt 2))) silent ["--no-such-option"] world0
  = Raise (SystemExit (ExitInt 32)) (set_reporter_output ToOutputStream world0).
Proof.
  exact (proj1 (run_exit_status (λ _ _, raise (SystemExit (ExitInt 2))) silent
                  ["--no-such-option"] world0 _ (ExitInt 2) eq_refl) eq_refl).
Defined.

Lemma run_missing_result_file_witness :
  ∃ code w',
    run diffParser silent ["--diff"; "old.txt"; "pkg"] world0
      = Raise (SystemExit code) w' ∧
    stderr w' = stderr world0 +:+ "Error: Result file '" +:+ "old.txt"
                +:+ "' does not exist." +:+ NL ∧
    checked w' = checked world0 ∧
    exit_status code = 0%Z.
Proof.
  apply (run_missing_result_file diffParser silent
           ["--diff"; "old.txt"; "pkg"] "old.txt" world0).
  - reflexivity.
  - intros cb e s' H. simpl. unfold bind. rewrite H. reflexivity.
Defined.

Lemma run_without_arguments_witness :
  ∃ tail,
    outputStream (final_state (run diffParser silent [] world0))
      = outputStream (set_reporter_output ToOutputStream world0) +:+ helpText +:+ tail ∧
    checked (final_state (run diffParser silent [] world0))
      = checked (set_reporter_output ToOutputStream world0) ++ [[]].
Proof.
  exact (run_without_arguments diffParser silent [] world0 _ eq_refl).
Defined.

End OrchestratorWitnesses.

(** ** Further properties of the parser *)

Section ParserExtras.
Import PyStr Report ReportAux.

(** X1: a text without any module-header line parses to the empty
    dictionary, whatever warnings it holds. *)
Theorem computeWarnings_no_header (text : string) :
  Forall (λ l, is_header l = false) (loop_lines text) →
  computeWarnings text = ∅.
Proof.
  intros H. unfold computeWarnings, computeWarningsLines.
  fold (loop_lines text). unfold initial. by rewrite foldl_in_block.
Qed.

Lemma computeWarnings_no_header_witness :
  computeWarnings ("W0001: a" +:+ NL +:+ "  detail" +:+ NL) = ∅.
Proof.
  apply computeWarnings_no_header. vm_compute. repeat constructor.
Defined.

(** X2: the lines that come before the first module header are without
    effect: the text parses as the text that starts at that header. *)
Theorem computeWarnings_before_first_header
    (text text' : string) (pre rest : list string) (h : string) :
  loop_lines text = pre ++ h :: rest →
  loop_lines text' = h :: rest →
  Forall (λ l, is_header l = false) pre → is_header h = true →
  computeWarnings text = computeWarnings text'.
Proof.
  intros E E' Hpre Hh. unfold computeWarnings, computeWarningsLines.
  fold (loop_lines text) (loop_lines text'). rewrite E, E', foldl_app.
  unfold initial at 1. rewrite foldl_in_block by done. cbn [foldl].
  by rewrite !processLine_header by done.
Qed.

Lemma computeWarnings_before_first_header_witness :
  computeWarnings ("W0001: a" +:+ NL +:+ prefixModuleName +:+ "foo" +:+ NL +:+ "W0002: b")
  = computeWarnings (prefixModuleName +:+ "foo" +:+ NL +:+ "W0002: b").
Proof.
  apply (computeWarnings_before_first_header _ _ ["W0001: a"] ["W0002: b"]
           (prefixModuleName +:+ "foo")).
  - vm_compute. reflexivity.
  - vm_compute. reflexivity.
  - repeat constructor.
  - reflexivity.
Defined.

Lemma regex_app (w t : string) :
  regexLineStart w = true → regexLineStart (w +:+ t) = true.
Proof. by destruct w as [|? [|? [|? [|? [|? [|? ?]]]]]]. Qed.

Lemma append_last_Forall (P : string → Prop) (l : list string) (line : string) :
  (∀ w, P w → P (w +:+ NL +:+ line)) → Forall P l → Forall P (append_last l line).
Proof.
  intros HP. induction l as [|w l IH]; [done|].
  intros [Hw Hl]%Forall_cons. destruct l as [|w' l].
  - simpl. constructor; [by apply HP|done].
  - change (append_last (w :: w' :: l) line) with (w :: append_last (w' :: l) line).
    constructor; [done|by apply IH].
Qed.

End ParserExtras.

Section ParserInvariants.
Import PyStr Report ReportAux.

Lemma flush_lookup (st : pstate) (n : string) (s : gset string) :
  flush st !! n = Some s →
  warnings st !! n = Some s ∨
  (currentModule st = Some n ∧ n ≠ "" ∧ s = list_to_set (warningsCurrentModule st)).
Proof.
  unfold flush. destruct (currentModule st) as [m|]; [|by left].
  destruct m as [|a m]; [by left|]. simpl.
  destruct (decide (String a m = n)) as [<-|Hne].
  - rewrite lookup_insert_eq. intros [= <-]. by right.
  - rewrite lookup_insert_ne by done. by left.
Qed.

Lemma records_ok_flush (st : pstate) n s r :
  records_ok st → flush st !! n = Some s → r ∈ s → regexLineStart r = true.
Proof.
  intros [Hcur Hw] [Hl|(_ & _ & ->)]%flush_lookup Hr.
  - by eapply Hw.
  - apply elem_of_list_to_set in Hr. rewrite Forall_forall in Hcur. by apply Hcur.
Qed.

Lemma records_ok_step (st : pstate) (line : string) :
  records_ok st → records_ok (processLine st line).
Proof.
  intros Hok. pose proof Hok as [Hcur Hw]. unfold processLine.
  destruct (startswith prefixModuleName line).
  - split; [constructor|]. intros n s r. by apply records_ok_flush.
  - destruct (regexLineStart line) eqn:Hre.
    + split; [|done]. simpl. apply Forall_app. split; [done|by constructor].
    + destruct (warningsCurrentModule st) as [|w l] eqn:E; [done|].
      split; [|done]. cbn [warningsCurrentModule].
      apply append_last_Forall; [|done].
      intros w' Hw'. by apply regex_app.
Qed.

Lemma records_ok_foldl (lines : list string) (st : pstate) :
  records_ok st → records_ok (foldl processLine st lines).
Proof.
  revert st. induction lines as [|l lines IH]; intros st Hok; [done|].
  cbn [foldl]. by apply IH, records_ok_step.
Qed.

(** X3: every warning of a parsed report starts with a message id, for
    every input text. *)
Theorem computeWarnings_records (text : string) :
  map_Forall (λ _ s, set_Forall (λ r, regexLineStart r = true) s)
             (computeWarnings text).
Proof.
  intros n s Hl r Hr. unfold computeWarnings, computeWarningsLines in Hl.
  eapply records_ok_flush; [|exact Hl|exact Hr].
  apply records_ok_foldl. split; [constructor|].
  intros n' s' r' Hn'. simpl in Hn'. by rewrite lookup_empty in Hn'.
Qed.

Lemma names_ok_flush (Q : string → Prop) (st : pstate) (n : string) :
  names_ok Q st → is_Some (flush st !! n) → n ≠ "" ∧ Q n.
Proof.
  intros [Hw Hcm] [s [Hl|(Hc & Hne & _)]%flush_lookup].
  - apply Hw. by eexists.
  - split; [done|by apply Hcm].
Qed.

Lemma names_ok_foldl (Q : string → Prop) (lines : list string) (st : pstate) :
  Forall (λ l, is_header l = true → Q (moduleName l)) lines →
  names_ok Q st → names_ok Q (foldl processLine st lines).
Proof.
  revert st. induction lines as [|l lines IH]; intros st; [done|].
  intros [Hl Hlines]%Forall_cons Hok. cbn [foldl]. apply IH; [done|].
  destruct (is_header l) eqn:Hh.
  - rewrite processLine_header by done. split.
    + intros n. by apply names_ok_flush.
    + intros m [= <-]. by apply Hl.
  - destruct st as [w cm wcm]. rewrite processLine_in_block by done. exact Hok.
Qed.

(** X4: the modules of a parsed report are non-empty names, each one
    read from a header line of the text. *)
Theorem computeWarnings_modules (text : string) (n : string) :
  is_Some (computeWarnings text !! n) →
  n ≠ "" ∧ ∃ line, line ∈ loop_lines text ∧ is_header line = true ∧ moduleName line = n.
Proof.
  unfold computeWarnings, computeWarningsLines. fold (loop_lines text).
  apply (names_ok_flush
           (λ n, ∃ line, line ∈ loop_lines text ∧ is_header line = true ∧
                         moduleName line = n)).
  apply names_ok_foldl.
  - apply Forall_forall. intros l Hl Hh. by exists l.
  - split; [|done]. intros m [? Hm]. simpl in Hm. by rewrite lookup_empty in Hm.
Qed.

Lemma computeWarnings_modules_witness :
  "foo" ≠ "" ∧
  ∃ line, line ∈ loop_lines Examples.repeatedText ∧ is_header line = true ∧
          moduleName line = "foo".
Proof.
  apply (computeWarnings_modules Examples.repeatedText "foo").
  vm_compute. by eexists.
Defined.

End ParserInvariants.

Section FinalLineBreak.
Import PyStr Report ReportAux.

Lemma rstrip_cons (c : ascii) (l : string) :
  is_nl c = false → rstrip_nl (String c l) = String c (rstrip_nl l).
Proof. intros Hc. simpl. rewrite Hc. by destruct (rstrip_nl l). Qed.

(** A line read from a text is a lone line break or starts with another
    character. *)
Lemma readlines_shape (s : string) :
  Forall (λ l, l = NL ∨ ∃ c l', l = String c l' ∧ is_nl c = false) (readlines s).
Proof.
  induction s as [|c s IH]; [constructor|].
  simpl. destruct (is_nl c) eqn:Hc.
  - constructor; [by left|done].
  - destruct (readlines s) as [|l ls].
    + constructor; [|done]. right. by eexists _, _.
    + apply Forall_cons in IH as [_ Hls]. constructor; [|done].
      right. by eexists _, _.
Qed.

Lemma loop_lines_rstrip (s : string) :
  loop_lines s = rstrip_nl <$> readlines s.
Proof.
  unfold loop_lines. apply Forall_fmap_ext_1.
  eapply Forall_impl; [apply readlines_shape|].
  intros l [->|(c & l' & -> & Hc)]; [reflexivity|].
  unfold strip_nl. cbn [lstrip_nl]. by rewrite Hc.
Qed.

Lemma readlines_cons (c : ascii) (s : string) :
  readlines (String c s) =
  if is_nl c then NL :: readlines s
  else match readlines s with
       | [] => [String c ""]
       | l :: ls => String c l :: ls
       end.
Proof. reflexivity. Qed.

Lemma readlines_final_break (t : string) :
  t ≠ "" → ends_nl t = false →
  rstrip_nl <$> readlines (t +:+ NL) = rstrip_nl <$> readlines t.
Proof.
  induction t as [|c t IH]; [done|]. intros _ Hend.
  destruct (decide (t = "")) as [->|Hne].
  - simpl in Hend. rewrite str_app_cons, str_app_nil_l, !readlines_cons, Hend.
    change (readlines NL) with [NL]. change (readlines "") with (@nil string).
    cbn [fmap list_fmap]. by rewrite !rstrip_cons by done.
  - assert (ends_nl t = false) as Hend' by (by destruct t).
    specialize (IH Hne Hend').
    rewrite str_app_cons, !readlines_cons. destruct (is_nl c) eqn:Hc.
    + rewrite !fmap_cons. by f_equal.
    + destruct (readlines (t +:+ NL)) as [|l ls],
        (readlines t) as [|l' ls']; try done.
      rewrite !fmap_cons in IH. injection IH as Hl Hls.
      rewrite !fmap_cons, !rstrip_cons by done. by rewrite Hl, Hls.
Qed.

(** X5: a line break added at the end of a text that does not end with
    one leaves the parsed report unchanged. *)
Theorem computeWarnings_final_break (text : string) :
  ends_nl text = false →
  computeWarnings (text +:+ NL) = computeWarnings text.
Proof.
  intros Hend. destruct (decide (text = "")) as [->|Hne]; [done|].
  unfold computeWarnings.
  fold (loop_lines (text +:+ NL)) (loop_lines text).
  by rewrite !loop_lines_rstrip, readlines_final_break.
Qed.

Lemma computeWarnings_final_break_witness :
  computeWarnings (Examples.repeatedText +:+ NL)
  = computeWarnings Examples.repeatedText.
Proof.
  apply computeWarnings_final_break. vm_compute. reflexivity.
Defined.

End FinalLineBreak.

(** ** Further properties of the diff *)

Section DiffExtras.
Import PyStr Report ReportAux.

Lemma newErrors_lookup (previous current : gmap string (gset string)) :
  ∀ k, newErrors previous current !! k =
       s ← current !! k;
       if decide (s ∖ default ∅ (previous !! k) = ∅) then None
       else Some (s ∖ default ∅ (previous !! k)).
Proof.
  unfold newErrors.
  apply (map_fold_weak_ind (λ r m, ∀ j, r !! j =
           s ← m !! j;
           if decide (s ∖ default ∅ (previous !! j) = ∅) then None
           else Some (s ∖ default ∅ (previous !! j)))).
  - intros k'. by rewrite !lookup_empty.
  - intros i x m r Hi IH k'. cbn zeta.
    destruct (decide (i = k')) as [->|Hne].
    + rewrite lookup_insert_eq. simpl. case_decide.
      * by rewrite IH, Hi.
      * by rewrite lookup_insert_eq.
    + rewrite (lookup_insert_ne m) by done. case_decide.
      * apply IH.
      * rewrite lookup_insert_ne by done. apply IH.
Qed.

(** X6: the dictionary of new errors is empty exactly when every warning
    of the current report is a warning of the baseline for the same
    module. *)
Theorem newErrors_empty_iff (previous current : gmap string (gset string)) :
  newErrors previous current = ∅ ↔
  map_Forall (λ k s, s ⊆ default ∅ (previous !! k)) current.
Proof.
  split.
  - intros E k s Hk.
    assert (newErrors previous current !! k = None) as Hl by (by rewrite E).
    rewrite newErrors_lookup, Hk in Hl. simpl in Hl.
    case_decide as Hd; [|done]. simpl. by apply empty_difference_subseteq_L.
  - intros H. apply map_eq. intros k. rewrite newErrors_lookup, lookup_empty.
    destruct (current !! k) as [s|] eqn:Hk; [|done]. simpl.
    rewrite decide_True; [done|]. apply subseteq_empty_difference_L.
    exact (H k s Hk).
Qed.

Lemma join_nl_header_nonempty (n : string) (rest : list string) :
  join_nl ((prefixModuleName +:+ n) :: rest) ≠ "".
Proof. by destruct rest. Qed.

(** X7: the text [generateDiff] returns is empty exactly when there is
    no new error; in particular a report compared with itself gives the
    empty text. *)
Theorem generateDiff_empty_iff (previous result : string) :
  (generateDiff previous result = "" ↔
   newErrors (computeWarnings previous) (computeWarnings result) = ∅) ∧
  generateDiff result result = "".
Proof.
  assert (∀ p r, generateDiff p r = "" ↔
                 newErrors (computeWarnings p) (computeWarnings r) = ∅) as Hiff.
  { intros p r. unfold generateDiff, formatNewErrors.
    set (new := newErrors _ _). case_decide as E; [done|].
    split; [|done]. intros Hj. exfalso.
    unfold dict_items in Hj.
    destruct (map_to_list new) as [|[n s] l] eqn:El.
    - by apply map_to_list_empty_iff in El.
    - by apply join_nl_header_nonempty in Hj. }
  split; [apply Hiff|]. apply Hiff, map_eq. intros k.
  rewrite newErrors_lookup, lookup_empty.
  destruct (computeWarnings result !! k) as [s|]; [|done]. simpl.
  by rewrite decide_True by apply difference_diag_L.
Qed.

End DiffExtras.

(** ** Further properties of the registry *)

Section RegistryExtras.
Import Eff Registry RegistryExamples.

Lemma unregisterChecker_Ok_inv c st u st' :
  unregisterChecker c st = Ok u st' →
  c ∈ table st (name c) ∧ st' = unregistered c st.
Proof.
  intros H. destruct (decide (c ∈ table st (name c))) as [Hin|Hout].
  - split; [done|]. rewrite unregisterChecker_ok in H by done. by injection H.
  - apply unregisterChecker_raises in Hout as [e He]. congruence.
Qed.

(** X8: on a checker that the table does not list under its name,
    [unregisterChecker] raises [KeyError] when the table has no list for
    that name and [ValueError] when it has one, and the registry is left
    as it was. *)
Theorem unregisterChecker_error (c : Checker) (st : PyLinter) :
  c ∉ table st (name c) →
  unregisterChecker c st =
  Raise (if decide (is_Some (_checkers st !! name c)) then ValueError else KeyError) st.
Proof.
  intros Hin. unfold unregisterChecker, bind, get, put, ret, raise, table in *.
  simpl. destruct (_checkers st !! name c) as [l|] eqn:E; simpl in *.
  - by rewrite list_remove_None by done.
  - done.
Qed.

Lemma unregisterChecker_error_witness :
  unregisterChecker headerChecker linter1 = Raise ValueError linter1.
Proof.
  apply (unregisterChecker_error headerChecker linter1).
  vm_compute. apply not_elem_of_nil.
Defined.

Lemma unregistered_frame c st x :
  x ≠ c →
  (∀ k, occurrences x (table (unregistered c st) k) = occurrences x (table st k)) ∧
  _reports (unregistered c st) !! x = _reports st !! x ∧
  occurrences x (options_providers (unregistered c st))
  = occurrences x (options_providers st).
Proof.
  intros Hne. split; [|split].
  - intros k. unfold table, unregistered. simpl.
    rewrite lookup_insert. case_decide as E; [|done]. subst k. simpl.
    fold (table st (name c)). rewrite occurrences_remove1.
    rewrite decide_False by done. lia.
  - simpl. by rewrite lookup_delete_ne.
  - simpl. rewrite occurrences_remove1. rewrite decide_False by done. lia.
Qed.

(** X9: a successful [unregisterChecker] takes one occurrence of the
    checker out of the list under its name and out of the option
    providers, deletes its reports, and leaves every other checker where
    it was. *)
Theorem unregisterChecker_effect (c : Checker) (st st' : PyLinter) :
  unregisterChecker c st = Ok tt st' →
  (occurrences c (table st' (name c)) + 1 = occurrences c (table st (name c)) ∧
   _reports st' !! c = None ∧
   occurrences c (options_providers st')
   = occurrences c (options_providers st) - 1) ∧
  ∀ x, x ≠ c →
    (∀ k, occurrences x (table st' k) = occurrences x (table st k)) ∧
    _reports st' !! x = _reports st !! x ∧
    occurrences x (options_providers st') = occurrences x (options_providers st).
Proof.
  intros [Hin ->]%unregisterChecker_Ok_inv. split; [|by apply unregistered_frame].
  split; [|split].
  - rewrite table_unregistered by done. rewrite decide_True by done.
    rewrite occurrences_remove1, decide_True by done.
    apply occurrences_pos in Hin. lia.
  - simpl. apply lookup_delete_eq.
  - simpl. rewrite occurrences_remove1. by rewrite decide_True.
Qed.

Lemma unregisterChecker_effect_witness :
  (occurrences headerChecker (table (unregistered headerChecker linter0) (name headerChecker)) + 1
   = occurrences headerChecker (table linter0 (name headerChecker)) ∧
   _reports (unregistered headerChecker linter0) !! headerChecker = None ∧
   occurrences headerChecker (options_providers (unregistered headerChecker linter0))
   = occurrences headerChecker (options_providers linter0) - 1) ∧
  ∀ x, x ≠ headerChecker →
    (∀ k, occurrences x (table (unregistered headerChecker linter0) k)
          = occurrences x (table linter0 k)) ∧
    _reports (unregistered headerChecker linter0) !! x = _reports linter0 !! x ∧
    occurrences x (options_providers (unregistered headerChecker linter0))
    = occurrences x (options_providers linter0).
Proof.
  apply (unregisterChecker_effect headerChecker linter0).
  apply unregisterChecker_ok. vm_compute. by left.
Defined.

Lemma for_each_frame cs st st' x :
  for_each cs unregisterChecker st = Ok tt st' → x ∉ cs →
  (∀ k, occurrences x (table st' k) = occurrences x (table st k)) ∧
  _reports st' !! x = _reports st !! x ∧
  occurrences x (options_providers st') = occurrences x (options_providers st).
Proof.
  revert st. induction cs as [|c cs IH]; intros st.
  - by intros [= ->] _.
  - cbn [for_each]. unfold bind at 1.
    destruct (unregisterChecker c st) as [[] st1|e st1] eqn:E; [|done].
    intros Hrun [Hne Hx]%not_elem_of_cons.
    apply unregisterChecker_Ok_inv in E as [_ ->].
    destruct (IH _ Hrun Hx) as (H1 & H2 & H3).
    destruct (unregistered_frame c st x Hne) as (F1 & F2 & F3).
    split; [|split].
    + intros k. by rewrite H1, F1.
    + by rewrite H2, F2.
    + by rewrite H3, F3.
Qed.

(** X10: when [restrictCheckers] returns, a checker that declares an
    allowed message is listed as often as before in the table and in the
    option providers, and its reports are kept. *)
Theorem restrictCheckers_keeps (A : list string) (st st' : PyLinter) (x : Checker) :
  restrictCheckers A st = Ok tt st' →
  msgs x ∩ list_to_set A ≠ ∅ →
  (∀ k, occurrences x (table st' k) = occurrences x (table st k)) ∧
  _reports st' !! x = _reports st !! x ∧
  occurrences x (options_providers st') = occurrences x (options_providers st).
Proof.
  unfold restrictCheckers, bind. rewrite findUselessCheckers_value.
  intros Hrun Hx. eapply for_each_frame; [done|].
  rewrite elem_of_uselessCheckers. intros [_ Hu].
  apply bool_decide_eq_true in Hu. done.
Qed.

Lemma restrictCheckers_keeps_witness :
  ∃ st', restrictCheckers ["W9001"] linter0 = Ok tt st' ∧
    (∀ k, occurrences headerChecker (table st' k)
          = occurrences headerChecker (table linter0 k)) ∧
    _reports st' !! headerChecker = _reports linter0 !! headerChecker ∧
    occurrences headerChecker (options_providers st')
    = occurrences headerChecker (options_providers linter0).
Proof.
  eexists. split; [vm_compute; reflexivity|].
  apply (restrictCheckers_keeps ["W9001"] linter0 _ headerChecker).
  - vm_compute. reflexivity.
  - vm_compute. discriminate.
Defined.

End RegistryExtras.

Section RestrictionExtras.
Import Eff Registry RegistryExamples.

Lemma for_each_counts (cs : list Checker) (st : PyLinter) :
  indexed_by_name st →
  (∀ x, occurrences x cs ≤ occurrences x (table st (name x))) →
  ∃ st', for_each cs unregisterChecker st = Ok tt st' ∧ indexed_by_name st' ∧
         ∀ x, occurrences x (table st' (name x))
              = occurrences x (table st (name x)) - occurrences x cs.
Proof.
  revert st. induction cs as [|c cs IH]; intros st Hidx Hle.
  - exists st. repeat split; [done|]. intros x. simpl. lia.
  - assert (c ∈ table st (name c)) as Hin.
    { apply occurrences_pos. specialize (Hle c). simpl in Hle.
      rewrite decide_True in Hle by done. lia. }
    destruct (IH (unregistered c st)) as (st' & Hrun & Hidx' & Hcount).
    + by apply indexed_unregistered.
    + intros x. rewrite table_unregistered by done. specialize (Hle x).
      simpl in Hle. destruct (decide (name c = name x)) as [En|En].
      * rewrite occurrences_remove1. destruct (decide (x = c)); lia.
      * rewrite decide_False in Hle by congruence. lia.
    + exists st'. split; [|split; [done|]].
      * cbn [for_each]. unfold bind at 1. by rewrite unregisterChecker_ok.
      * intros x. rewrite Hcount, table_unregistered by done. simpl.
        destruct (decide (name c = name x)) as [En|En].
        -- rewrite occurrences_remove1. destruct (decide (x = c)); lia.
        -- rewrite decide_False by congruence. lia.
Qed.

Lemma registered_iff (st : PyLinter) (x : Checker) :
  indexed_by_name st →
  registered st x ↔ 0 < occurrences x (table st (name x)).
Proof.
  intros Hidx. rewrite <- occurrences_pos. split.
  - intros (k & l & Hl & Hx). pose proof (Hidx _ _ _ Hl Hx) as <-.
    by rewrite (table_Some _ _ _ Hl).
  - intros Hx. exists (name x), (table st (name x)). split; [|done].
    by eapply table_elem.
Qed.

(** The registry [restrictCheckers] leaves when the table is indexed by
    name. *)
Lemma restrictCheckers_result (A : list string) (st : PyLinter) :
  indexed_by_name st →
  ∃ st', restrictCheckers A st = Ok tt st' ∧ indexed_by_name st' ∧
         ∀ x, occurrences x (table st' (name x))
              = if useless A x then 0 else occurrences x (table st (name x)).
Proof.
  intros Hidx.
  destruct (for_each_counts (uselessCheckers A st) st) as (st' & Hrun & Hidx' & Hc).
  - done.
  - intros x. rewrite occurrences_uselessCheckers by done.
    destruct (useless A x); lia.
  - exists st'. split; [|split; [done|]].
    + unfold restrictCheckers, bind. by rewrite findUselessCheckers_value.
    + intros x. rewrite Hc, occurrences_uselessCheckers by done.
      destruct (useless A x); lia.
Qed.

(** X11: in a registry indexed by name, [restrictCheckers] does not
    raise, and the checkers registered afterwards are exactly the
    checkers registered before that declare an allowed message. *)
Theorem restrictCheckers_selective (A : list string) (st : PyLinter) :
  indexed_by_name st →
  ∃ st', restrictCheckers A st = Ok tt st' ∧
         ∀ x, registered st' x ↔
              registered st x ∧ msgs x ∩ list_to_set A ≠ ∅.
Proof.
  intros Hidx. destruct (restrictCheckers_result A st Hidx) as (st' & Hrun & Hidx' & Hc).
  exists st'. split; [done|]. intros x.
  rewrite !registered_iff, Hc by done. unfold useless.
  case_bool_decide as Hu; split.
  - lia.
  - by intros [_ ?].
  - done.
  - by intros [? _].
Qed.

Lemma restrictCheckers_selective_witness :
  ∃ st', restrictCheckers ["W9001"] linter0 = Ok tt st' ∧
         ∀ x, registered st' x ↔
              registered linter0 x ∧ msgs x ∩ list_to_set ["W9001"] ≠ ∅.
Proof.
  apply (restrictCheckers_selective ["W9001"] linter0).
  apply indexed_check_sound. vm_compute. reflexivity.
Defined.

(** X12: in a registry indexed by name, [restrictCheckers] run a second
    time with the same allow-list changes nothing. *)
Theorem restrictCheckers_idempotent (A : list string) (st : PyLinter) :
  indexed_by_name st →
  ∃ st', restrictCheckers A st = Ok tt st' ∧ restrictCheckers A st' = Ok tt st'.
Proof.
  intros Hidx. destruct (restrictCheckers_result A st Hidx) as (st' & Hrun & Hidx' & Hc).
  exists st'. split; [done|].
  assert (uselessCheckers A st' = []) as E.
  { apply elem_of_nil_inv. intros x [Hreg Hu]%elem_of_uselessCheckers.
    apply registered_iff in Hreg; [|done]. rewrite Hc, Hu in Hreg. lia. }
  unfold restrictCheckers, bind. by rewrite findUselessCheckers_value, E.
Qed.

Lemma restrictCheckers_idempotent_witness :
  ∃ st', restrictCheckers ["W9001"] linter0 = Ok tt st' ∧
         restrictCheckers ["W9001"] st' = Ok tt st'.
Proof.
  apply (restrictCheckers_idempotent ["W9001"] linter0).
  apply indexed_check_sound. vm_compute. reflexivity.
Defined.

(** X13: allowing more messages never makes more checkers useless: the
    checkers [findUselessCheckers] returns for an allow-list are among
    those it returns for any part of that list. *)
Theorem findUselessCheckers_antitone (A A' : list string) (st : PyLinter) :
  A ⊆ A' →
  ∃ cs cs', findUselessCheckers A st = Ok cs st ∧
            findUselessCheckers A' st = Ok cs' st ∧ cs' ⊆ cs.
Proof.
  intros Hsub. exists (uselessCheckers A st), (uselessCheckers A' st).
  split; [done|split; [done|]]. intros c.
  rewrite !elem_of_uselessCheckers. unfold useless.
  rewrite !bool_decide_eq_true. intros [Hreg Hc]. split; [done|].
  apply set_eq. intros m. split; [|by intros ?%not_elem_of_empty].
  intros [Hm HA]%elem_of_intersection. exfalso.
  apply elem_of_list_to_set in HA.
  assert (m ∈ msgs c ∩ list_to_set A') as Hin.
  { apply elem_of_intersection. split; [done|]. apply elem_of_list_to_set. by apply Hsub. }
  rewrite Hc in Hin. by apply not_elem_of_empty in Hin.
Qed.

Lemma findUselessCheckers_antitone_witness :
  ∃ cs cs', findUselessCheckers ["W9001"] linter0 = Ok cs linter0 ∧
            findUselessCheckers ["W9001"; "C0301"] linter0 = Ok cs' linter0 ∧
            cs' ⊆ cs.
Proof.
  apply (findUselessCheckers_antitone ["W9001"] ["W9001"; "C0301"] linter0).
  intros m Hm. apply elem_of_cons. by left; apply list_elem_of_singleton in Hm.
Defined.

End RestrictionExtras.

Section RegistrationExtras.
Import Eff Registry RegistryExamples Registration.

Variable register_checker : Checker → M PyLinter unit.

Lemma register_all_value (instances : list Checker) (allowed l : list string)
    (st st' : PyLinter) :
  register_all register_checker instances allowed st = Ok l st' →
  l = allowed ++ concat ((λ c, elements (msgs c)) <$> instances).
Proof.
  revert allowed st. induction instances as [|c instances IH]; intros allowed st.
  - simpl. intros [= <- _]. by rewrite app_nil_r.
  - cbn [register_all]. unfold bind at 1.
    destruct (register_checker c st) as [[] st1|e st1]; [|done].
    intros ->%IH. by rewrite fmap_cons, concat_cons, app_assoc.
Qed.

Lemma elem_of_concat (m : string) (ls : list (list string)) :
  m ∈ concat ls ↔ ∃ l, l ∈ ls ∧ m ∈ l.
Proof.
  rewrite list_elem_of_In, in_concat. split.
  - intros (l & ? & ?). exists l. by rewrite !list_elem_of_In.
  - intros (l & ? & ?). exists l. by rewrite <- !list_elem_of_In.
Qed.

(** X14: when [registerCheckers] returns, the set it returns holds the
    six messages kept from the engine's own checkers together with every
    message of the checkers of the tool, and nothing else. *)
Theorem registerCheckers_allowed (instances : list Checker) (st st' : PyLinter)
    (S : gset string) :
  registerCheckers register_checker instances st = Ok S st' →
  ∀ m, m ∈ S ↔
       m ∈ allowedMessagesFromPylint ∨ ∃ c, c ∈ instances ∧ m ∈ msgs c.
Proof.
  unfold registerCheckers, bind.
  destruct (register_all register_checker instances allowedMessagesFromPylint st)
    as [l st1|e st1] eqn:E; [|done].
  apply register_all_value in E as ->.
  generalize allowedMessagesFromPylint. intros l0.
  destruct (restrictCheckers _ st1) as [[] st2|e st2]; [|done].
  intros [= <- _] m. rewrite (elem_of_list_to_set (C := gset string)), elem_of_app.
  apply or_iff_compat_l. rewrite elem_of_concat. split.
  - intros (l' & (c & -> & Hc)%list_elem_of_fmap & Hm).
    exists c. split; [done|]. by apply elem_of_elements.
  - intros (c & Hc & Hm). exists (elements (msgs c)). split.
    + apply list_elem_of_fmap. by exists c.
    + by apply elem_of_elements.
Qed.

End RegistrationExtras.

Section RegistrationWitness.
Import Eff Registry RegistryExamples Registration.

Lemma registerCheckers_allowed_witness :
  ∃ S st', registerCheckers register_plain [headerChecker] emptyLinter = Ok S st' ∧
    ∀ m, m ∈ S ↔
         m ∈ allowedMessagesFromPylint ∨ ∃ c, c ∈ [headerChecker] ∧ m ∈ msgs c.
Proof.
  eexists _, _. split; [vm_compute; reflexivity|].
  eapply (registerCheckers_allowed register_plain [headerChecker] emptyLinter).
  vm_compute. reflexivity.
Defined.

End RegistrationWitness.

(** ** Further properties of [run] *)

Section RunExtras.
Import Eff PyStr Report Orchestrator OrchestratorExamples OrchestratorAux.

Variable load_command_line_configuration :
  (string → M world unit) → list string → M world (list string).
Variable engine_report : list string → string.

Abbreviation run' := (Orchestrator.run load_command_line_configuration engine_report).
Abbreviation parse' := (load_command_line_configuration _optionCallbackDiff).

(** X15: whenever the option parser returns, [run] evaluates the engine
    exactly once, on the arguments the parser returned, with the working
    directory put in front of the module search path. *)
Theorem run_evaluates_once (args args' : list string) (w w1 : world) :
  parse' args (set_reporter_output ToOutputStream w) = Ok args' w1 →
  checked (final_state (run' args w)) = checked w1 ++ [args'] ∧
  sys_path (final_state (run' args w)) = cwd w1 :: sys_path w1.
Proof.
  intros H.
  unfold Orchestrator.run, bind, modify, try_catch, get, ret, displayHelp, check.
  rewrite H. clear H.
  unfold diff_requested, prepareDiff, showDiffResults, bind, modify, get, raise.
  destruct w1 as [out err buf sink opt fs path cwd chk].
  destruct args' as [|a args']; simpl;
    (destruct opt as [[|b p]|]; simpl;
     [by destruct sink|by destruct (fs !! String b p)|by destruct sink]).
Qed.

(** X16: without the [--diff] option and with arguments left to check,
    [run] returns without writing the help text, and the report of the
    engine goes where the reporter writes once the options are parsed:
    when that is still the output stream, the output stream receives the
    report and nothing else; when it is the buffer [streamForDiff], the
    buffer receives it; in both other cases the output stream is left as
    it was.  The error stream is not written to. *)
Theorem run_plain (args args' : list string) (w w1 : world) :
  parse' args (set_reporter_output ToOutputStream w) = Ok args' w1 →
  args' ≠ [] → diff_requested w1 = false →
  ∃ wf, run' args w = Ok tt wf ∧
        outputStream wf
        = match reporter_output w1 with
          | ToOutputStream => outputStream w1 +:+ engine_report args'
          | _ => outputStream w1
          end ∧
        streamForDiff wf
        = match reporter_output w1 with
          | ToStreamForDiff =>
              (λ b, b +:+ engine_report args') <$> streamForDiff w1
          | _ => streamForDiff w1
          end ∧
        stderr wf = stderr w1.
Proof.
  intros H Hargs Hdiff.
  unfold Orchestrator.run, bind, modify, try_catch, get, ret, displayHelp, check.
  rewrite H. clear H.
  unfold diff_requested in *.
  destruct w1 as [out err buf sink opt fs path cwd chk]. simpl in *.
  destruct args' as [|a args']; [done|]. simpl. rewrite Hdiff. simpl.
  destruct sink; simpl; rewrite Hdiff; by eexists.
Qed.

(** X17: with the [--diff] option on an existing result file and with
    arguments left to check, the report of the engine goes to the buffer
    [streamForDiff] only, and what [run] appends to the output stream is
    the diff against the text of the result file, followed by a line
    break. *)
Theorem run_diff_mode (args args' : list string) (w w1 : world)
    (path previous : string) :
  parse' args (set_reporter_output ToOutputStream w) = Ok args' w1 →
  args' ≠ [] → diffOption w1 = Some path → path ≠ "" →
  files w1 !! path = Some previous →
  ∃ wf, run' args w = Ok tt wf ∧
        outputStream wf
        = outputStream w1 +:+ generateDiff previous (engine_report args') +:+ NL ∧
        streamForDiff wf = Some (engine_report args') ∧
        stderr wf = stderr w1.
Proof.
  intros H Hargs Hopt Hpath Hfile.
  unfold Orchestrator.run, bind, modify, try_catch, get, ret, displayHelp, check.
  rewrite H. clear H.
  unfold diff_requested, prepareDiff, showDiffResults, bind, modify, get, raise.
  destruct w1 as [out err buf sink opt fs sp cwd chk]. simpl in *. subst opt.
  destruct args' as [|a args']; [done|]. destruct path as [|b p]; [done|].
  simpl. rewrite Hfile. simpl. by eexists.
Qed.

End RunExtras.

Section RunWitnesses.
Import Eff PyStr Report Orchestrator OrchestratorExamples OrchestratorAux.

Lemma run_evaluates_once_witness :
  checked (final_state (run diffParser twoWarnings ["pkg"] worldWithResult))
    = checked (set_reporter_output ToOutputStream worldWithResult) ++ [["pkg"]] ∧
  sys_path (final_state (run diffParser twoWarnings ["pkg"] worldWithResult))
    = cwd (set_reporter_output ToOutputStream worldWithResult)
      :: sys_path (set_reporter_output ToOutputStream worldWithResult).
Proof.
  exact (run_evaluates_once diffParser twoWarnings ["pkg"] ["pkg"]
           worldWithResult _ eq_refl).
Defined.

Lemma run_plain_witness :
  ∃ wf, run diffParser twoWarnings ["pkg"] worldWithResult = Ok tt wf ∧
        outputStream wf
        = match reporter_output (set_reporter_output ToOutputStream worldWithResult) with
          | ToOutputStream =>
              outputStream (set_reporter_output ToOutputStream worldWithResult)
              +:+ twoWarnings ["pkg"]
          | _ => outputStream (set_reporter_output ToOutputStream worldWithResult)
          end ∧
        streamForDiff wf
        = match reporter_output (set_reporter_output ToOutputStream worldWithResult) with
          | ToStreamForDiff =>
              (λ b, b +:+ twoWarnings ["pkg"])
                <$> streamForDiff (set_reporter_output ToOutputStream worldWithResult)
          | _ => streamForDiff (set_reporter_output ToOutputStream worldWithResult)
          end ∧
        stderr wf = stderr (set_reporter_output ToOutputStream worldWithResult).
Proof.
  apply (run_plain diffParser twoWarnings ["pkg"] ["pkg"] worldWithResult).
  - reflexivity.
  - discriminate.
  - reflexivity.
Defined.

Lemma run_diff_mode_witness :
  ∃ wf, run diffParser twoWarnings ["--diff"; "old.txt"; "pkg"] worldWithResult
        = Ok tt wf ∧
        outputStream wf
        = "" +:+ generateDiff (prefixModuleName +:+ "foo" +:+ NL +:+ "W9001: 1,0: x")
                              (twoWarnings ["pkg"]) +:+ NL ∧
        streamForDiff wf = Some (twoWarnings ["pkg"]) ∧
        stderr wf = "".
Proof.
  apply (run_diff_mode diffParser twoWarnings ["--diff"; "old.txt"; "pkg"] ["pkg"]
           worldWithResult
           (set_diffOption (Some "old.txt")
              (set_reporter_output ToOutputStream worldWithResult))
           "old.txt").
  - vm_compute. reflexivity.
  - discriminate.
  - reflexivity.
  - discriminate.
  - vm_compute. reflexivity.
Defined.

(** What the user sees in the last example: the one new warning. *)
Example run_diff_mode_output :
  outputStream (final_state
    (run diffParser twoWarnings ["--diff"; "old.txt"; "pkg"] worldWithResult))
  = prefixModuleName +:+ "foo" +:+ NL +:+ "C0301: 10,0: Line too long" +:+ NL.
Proof. vm_compute. reflexivity. Qed.

End RunWitnesses.
